(** * FileCompressor: an in-memory ZIP encoder over the browser's
      CompressionStream

    Shallow embedding of [src/FileCompressor.js] and the properties of its
    archive layout.  The platform objects the class uses (typed arrays,
    [DataView], [TextEncoder], [Blob], streams, [Number] formatting) are
    modelled in [Module JS]; the class itself is [Module FileCompressor]. *)

From Stdlib Require Import ZArith Lia List String Ascii.
From Stdlib Require Import Strings.Byte.
From stdpp Require Import base numbers list strings gmap.

Local Open Scope Z_scope.

(** ** Bytes

    A [Uint8Array] is a [list byte]; [byte_val] reads an element as a
    JavaScript number and [byte_of] is the store conversion (modulo 256). *)

Definition byte_val (b : byte) : Z := Z.of_N (Byte.to_N b).

Definition byte_of (z : Z) : byte :=
  match Byte.of_N (Z.to_N (z mod 256)) with
  | Some b => b
  | None => x00
  end.


(** ** The JavaScript platform, as far as the class uses it *)

Module JS.

(** *** Exceptions and promises

    An [async] function either fulfils with a value or rejects with the
    thrown value; [await] of a rejected promise throws.  Sequential awaits
    are the bind of this monad. *)
Inductive exn : Type :=
| RangeError
| StreamFailure (reason : string).

Inductive result (A : Type) : Type :=
| Ok (a : A)
| Throw (e : exn).
Arguments Ok {A} a.
Arguments Throw {A} e.

Definition bind {A B : Type} (m : result A) (k : A -> result B) : result B :=
  match m with
  | Ok a => k a
  | Throw e => Throw e
  end.

Notation "x <- m ;; k" := (bind m (fun x => k))
  (at level 100, m at next level, right associativity).

(** *** Numbers *)

(** Integer conversions of the language's bitwise operators and of the
    typed stores. *)
Definition ToUint32 (z : Z) : Z := z mod 2 ^ 32.
Definition ToUint16 (z : Z) : Z := z mod 2 ^ 16.
Definition ToInt32 (z : Z) : Z :=
  let u := z mod 2 ^ 32 in if u <? 2 ^ 31 then u else u - 2 ^ 32.

(** [a ^ b], [a & b]: operands through [ToInt32], signed 32-bit result. *)
Definition bitxor (a b : Z) : Z := ToInt32 (Z.lxor (ToInt32 a) (ToInt32 b)).
Definition bitand (a b : Z) : Z := ToInt32 (Z.land (ToInt32 a) (ToInt32 b)).
(** [a >>> k]: left operand through [ToUint32], count modulo 32. *)
Definition ushr (a k : Z) : Z := Z.shiftr (ToUint32 a) (k mod 32).
(** Truthiness of a number (never NaN here). *)
Definition truthy (z : Z) : bool := negb (z =? 0).

(** [n.toString(16)] for a non-negative integer [n]: lowercase digits, most
    significant first, no leading zero, ["0"] for zero. *)
Definition hexDigit (d : Z) : ascii :=
  nth (Z.to_nat d) (list_ascii_of_string "0123456789abcdef") "0"%char.

Fixpoint toString16_digits (fuel : nat) (n : Z) (acc : string) : string :=
  match fuel with
  | O => acc
  | S fuel' =>
      if n =? 0 then acc
      else toString16_digits fuel' (n / 16) (String (hexDigit (n mod 16)) acc)
  end.

Definition Number_toString16 (n : Z) : string :=
  if n =? 0 then "0"%string
  else toString16_digits (S (Z.to_nat (Z.log2 n))) n EmptyString.

(** *** Strings

    A JavaScript string is modelled by a Rocq [string] whose characters are
    its code units, so the model covers the strings with code units below
    256.  [padStart] is taken at a one-character pad string, its only use. *)
Definition String_padStart (s : string) (targetLength : nat) (pad : ascii)
  : string :=
  string_of_list_ascii
    (List.repeat pad (targetLength - String.length s)) +:+ s.

(** [new TextEncoder().encode(s)]: UTF-8, one byte below U+0080 and two
    bytes from U+0080 to U+00FF. *)
Definition utf8_of_code_unit (c : Z) : list byte :=
  if c <? 128 then [byte_of c]
  else [byte_of (Z.lor 0xC0 (Z.shiftr c 6)); byte_of (Z.lor 0x80 (Z.land c 0x3F))].

Definition TextEncoder_encode (s : string) : list byte :=
  flat_map (fun a => utf8_of_code_unit (Z.of_N (N_of_ascii a)))
           (list_ascii_of_string s).

(** *** Buffers and views *)

(** [new ArrayBuffer(n)]: [n] zero bytes. *)
Definition ArrayBuffer_new (n : nat) : list byte := List.repeat x00 n.

(** [buf.slice(b, e)] at non-negative integers: both ends clamped to the
    length, empty when [e <= b]. *)
Definition ArrayBuffer_slice (buf : list byte) (b e : nat) : list byte :=
  take (e - b) (drop b buf).

(** In-place store of [src] at [off]; out of range is a [RangeError]. *)
Definition store (buf : list byte) (off : nat) (src : list byte)
  : result (list byte) :=
  if (off + length src <=? length buf)%nat
  then Ok (take off buf ++ src ++ drop (off + length src) buf)
  else Throw RangeError.

(** Little-endian digits of a number in base 256, and their value. *)
Fixpoint le_split (n : nat) (v : Z) : list byte :=
  match n with
  | O => []
  | S n' => byte_of v :: le_split n' (v / 256)
  end.

Fixpoint le_combine (bs : list byte) : Z :=
  match bs with
  | [] => 0
  | b :: bs' => byte_val b + 256 * le_combine bs'
  end.

Definition endian (littleEndian : bool) (bs : list byte) : list byte :=
  if littleEndian then bs else rev bs.

(** [new DataView(buf).setUint16(off, v, littleEndian)] and [setUint32]. *)
Definition DataView_setUint16 (buf : list byte) (off : nat) (v : Z)
  (littleEndian : bool) : result (list byte) :=
  store buf off (endian littleEndian (le_split 2 (ToUint16 v))).

Definition DataView_setUint32 (buf : list byte) (off : nat) (v : Z)
  (littleEndian : bool) : result (list byte) :=
  store buf off (endian littleEndian (le_split 4 (ToUint32 v))).

(** [new DataView(buf, byteOffset).getUint32(idx, littleEndian)]: the view
    constructor and the read both raise [RangeError] out of range. *)
Definition DataView_getUint32 (buf : list byte) (byteOffset idx : nat)
  (littleEndian : bool) : result Z :=
  if (byteOffset <=? length buf)%nat && (byteOffset + idx + 4 <=? length buf)%nat
  then Ok (le_combine (endian littleEndian
                         (take 4 (drop (byteOffset + idx) buf))))
  else Throw RangeError.

(** [new Uint8Array(buf, byteOffset).set(src)]. *)
Definition Uint8Array_set (buf : list byte) (byteOffset : nat)
  (src : list byte) : result (list byte) :=
  if (byteOffset <=? length buf)%nat then store buf byteOffset src
  else Throw RangeError.

(** *** Blobs *)

Record Blob : Type := mkBlob { blob_bytes : list byte; blob_type : string }.

(** [new Blob(parts, { type })]; [new Blob(parts)] has the empty type. *)
Definition Blob_new (blobParts : list (list byte)) (type : string) : Blob :=
  {| blob_bytes := concat blobParts; blob_type := type |}.

(** *** Streams

    What successive [reader.read()] calls on a readable stream resolve to:
    a chunk ([value] may be missing), the end of the stream, or a
    rejection.  A transform stream that fails errors both of its sides with
    the same reason, so the writer's promises reject exactly when the
    readable side does; the readable side is all the model keeps. *)
Inductive ReadableStream : Type :=
| StreamDone
| StreamChunk (value : option (list byte)) (rest : ReadableStream)
| StreamErrored (e : exn).

(** The environment: what the [n]-th [new CompressionStream('deflate')] of a
    call emits on its readable side when fed [input]. *)
Definition Compressor : Type := nat -> list byte -> ReadableStream.

End JS.

(** ** The class *)

Module FileCompressor.
Import JS.

(** [#streamToBlob], lines 2-19.  The [catch] logs and rethrows. *)
Fixpoint streamToBlob_loop (stream : ReadableStream) (chunks : list (list byte))
  : result Blob :=
  match stream with
  | StreamDone => Ok (Blob_new chunks "")
  | StreamChunk value rest =>
      streamToBlob_loop rest
        (match value with Some v => chunks ++ [v] | None => chunks end)
  | StreamErrored e => Throw e
  end.

Definition streamToBlob (stream : ReadableStream) : result Blob :=
  streamToBlob_loop stream [].

(** [#writeUint16], [#writeUint32], [#encodeFilename], lines 21-31. *)
Definition writeUint16 (view : list byte) (offset : nat) (value : Z)
  : result (list byte) := DataView_setUint16 view offset value true.

Definition writeUint32 (view : list byte) (offset : nat) (value : Z)
  : result (list byte) := DataView_setUint32 view offset value true.

Definition encodeFilename (filename : string) : list byte :=
  TextEncoder_encode filename.

(** [#calculateCRC32], lines 33-49.  The inner loop over [j] is the eightfold
    iteration; [crcTable[i]] out of range is [undefined], which [^] reads
    as 0. *)
Definition crcTableRound (crc : Z) : Z :=
  if truthy (bitand crc 1) then bitxor (ushr crc 1) 0xEDB88320 else ushr crc 1.

Definition crcTableEntry (i : Z) : Z := Nat.iter 8 crcTableRound i.

Definition crcTable : list Z :=
  List.map (fun i => crcTableEntry (Z.of_nat i)) (seq 0 256).

Definition crcUpdate (crc : Z) (b : byte) : Z :=
  bitxor (ushr crc 8)
         (nth (Z.to_nat (bitand (bitxor crc (byte_val b)) 0xFF)) crcTable 0).

Definition calculateCRC32 (data : list byte) : Z :=
  let crc := fold_left crcUpdate data 0xFFFFFFFF in
  ushr (bitxor crc 0xFFFFFFFF) 0.

(** The input entries: [file.name] and the bytes of [file.arrayBuffer()]. *)
Record File : Type := mkFile { name : string; data : list byte }.

(** The mutable locals of [#createZipFromFiles], lines 52-55. *)
Record state : Type := mkState {
  parts : list (list byte);
  centralHeaders : list (list byte);
  adler32Map : gmap string Z;
  offset : Z
}.

Definition initial : state :=
  {| parts := []; centralHeaders := []; adler32Map := empty; offset := 0 |}.

(** Lines 82-96: strip the zlib wrapper off [compressedDataBuffer], storing
    the Adler-32 trailer under the file's name. *)
Definition zlibWrapped (compressedView : list byte) : bool :=
  (6 <=? length compressedView)%nat &&
  match compressedView with
  | b :: _ => byte_val b =? 0x78
  | [] => false
  end.

Definition stripWrapper (adler32Map : gmap string Z) (fileName : string)
  (compressedDataBuffer : list byte) : result (gmap string Z * list byte) :=
  if zlibWrapped compressedDataBuffer then
    adler32 <- DataView_getUint32 compressedDataBuffer
                 (length compressedDataBuffer - 4) 0 false ;;
    Ok (<[fileName := adler32]> adler32Map,
        ArrayBuffer_slice compressedDataBuffer 2
          (length compressedDataBuffer - 4))
  else Ok (adler32Map, compressedDataBuffer).

(** Lines 101-116: the local file header. *)
Definition buildLocalHeader (crc32 compressedSize uncompressedSize : Z)
  (filenameBytes : list byte) : result (list byte) :=
  let localHeaderSize := (30 + length filenameBytes)%nat in
  let localHeader := ArrayBuffer_new localHeaderSize in
  localHeader <- writeUint32 localHeader 0 0x04034b50 ;;
  localHeader <- writeUint16 localHeader 4 20 ;;
  localHeader <- writeUint16 localHeader 6 0 ;;
  localHeader <- writeUint16 localHeader 8 8 ;;
  localHeader <- writeUint16 localHeader 10 0 ;;
  localHeader <- writeUint32 localHeader 14 crc32 ;;
  localHeader <- writeUint32 localHeader 18 compressedSize ;;
  localHeader <- writeUint32 localHeader 22 uncompressedSize ;;
  localHeader <- writeUint16 localHeader 26 (Z.of_nat (length filenameBytes)) ;;
  localHeader <- writeUint16 localHeader 28 0 ;;
  Uint8Array_set localHeader 30 filenameBytes.

(** Line 123: [adler32Map.get(file.name) || 0]. *)
Definition lookupAdler32 (adler32Map : gmap string Z) (fileName : string) : Z :=
  match adler32Map !! fileName with
  | Some a => if truthy a then a else 0
  | None => 0
  end.

(** Lines 124-125. *)
Definition encodeComment (adler32 : Z) : list byte :=
  let adler32Hex := String_padStart (Number_toString16 adler32) 8 "0" in
  TextEncoder_encode adler32Hex.

(** Lines 127-150: the central directory header. *)
Definition buildCentralHeader (crc32 compressedSize uncompressedSize : Z)
  (filenameBytes commentBytes : list byte) (offset : Z) : result (list byte) :=
  let centralHeaderSize :=
    (46 + length filenameBytes + length commentBytes)%nat in
  let centralHeader := ArrayBuffer_new centralHeaderSize in
  centralHeader <- writeUint32 centralHeader 0 0x02014b50 ;;
  centralHeader <- writeUint16 centralHeader 4 20 ;;
  centralHeader <- writeUint16 centralHeader 6 20 ;;
  centralHeader <- writeUint16 centralHeader 8 0 ;;
  centralHeader <- writeUint16 centralHeader 10 8 ;;
  centralHeader <- writeUint16 centralHeader 12 0 ;;
  centralHeader <- writeUint16 centralHeader 14 0 ;;
  centralHeader <- writeUint32 centralHeader 16 crc32 ;;
  centralHeader <- writeUint32 centralHeader 20 compressedSize ;;
  centralHeader <- writeUint32 centralHeader 24 uncompressedSize ;;
  centralHeader <- writeUint16 centralHeader 28 (Z.of_nat (length filenameBytes)) ;;
  centralHeader <- writeUint16 centralHeader 30 0 ;;
  centralHeader <- writeUint16 centralHeader 32 (Z.of_nat (length commentBytes)) ;;
  centralHeader <- writeUint16 centralHeader 34 0 ;;
  centralHeader <- writeUint16 centralHeader 36 0 ;;
  centralHeader <- writeUint32 centralHeader 38 0 ;;
  centralHeader <- writeUint32 centralHeader 42 offset ;;
  centralHeader <- Uint8Array_set centralHeader 46 filenameBytes ;;
  Uint8Array_set centralHeader (46 + length filenameBytes) commentBytes.

(** The body of the loop over [files], lines 58-153, for the [n]-th file.
    The [try]/[catch] of lines 62-79 logs and rethrows. *)
Definition processFile (deflate : Compressor) (n : nat) (file : File)
  (st : state) : result state :=
  let filenameBytes := encodeFilename (name file) in
  let fileDataBuffer := data file in
  let crc32 := calculateCRC32 fileDataBuffer in
  compressedBlob <- streamToBlob (deflate n fileDataBuffer) ;;
  let compressedDataBuffer := blob_bytes compressedBlob in
  stripped <- stripWrapper (adler32Map st) (name file) compressedDataBuffer ;;
  let adler32Map := fst stripped in
  let compressedData := snd stripped in
  let compressedSize := Z.of_nat (length compressedData) in
  let uncompressedSize := Z.of_nat (length fileDataBuffer) in
  let localHeaderSize := 30 + Z.of_nat (length filenameBytes) in
  localHeader <- buildLocalHeader crc32 compressedSize uncompressedSize
                   filenameBytes ;;
  let parts := parts st ++ [localHeader; compressedData] in
  let adler32 := lookupAdler32 adler32Map (name file) in
  let commentBytes := encodeComment adler32 in
  centralHeader <- buildCentralHeader crc32 compressedSize uncompressedSize
                     filenameBytes commentBytes (offset st) ;;
  Ok {| parts := parts;
        centralHeaders := centralHeaders st ++ [centralHeader];
        adler32Map := adler32Map;
        offset := offset st + (localHeaderSize + compressedSize) |}.

Fixpoint processFiles (deflate : Compressor) (n : nat) (files : list File)
  (st : state) : result state :=
  match files with
  | [] => Ok st
  | file :: files' =>
      st' <- processFile deflate n file st ;;
      processFiles deflate (S n) files' st'
  end.

(** Lines 162-171: the end-of-central-directory record. *)
Definition buildEndOfCentralDir (filesLength centralDirSize centralDirStart : Z)
  : result (list byte) :=
  let endOfCentralDir := ArrayBuffer_new 22 in
  endOfCentralDir <- writeUint32 endOfCentralDir 0 0x06054b50 ;;
  endOfCentralDir <- writeUint16 endOfCentralDir 4 0 ;;
  endOfCentralDir <- writeUint16 endOfCentralDir 6 0 ;;
  endOfCentralDir <- writeUint16 endOfCentralDir 8 filesLength ;;
  endOfCentralDir <- writeUint16 endOfCentralDir 10 filesLength ;;
  endOfCentralDir <- writeUint32 endOfCentralDir 12 centralDirSize ;;
  endOfCentralDir <- writeUint32 endOfCentralDir 16 centralDirStart ;;
  writeUint16 endOfCentralDir 20 0.

(** [#createZipFromFiles], lines 51-177. *)
Definition createZipFromFiles (deflate : Compressor) (files : list File)
  : result Blob :=
  st <- processFiles deflate 0 files initial ;;
  let centralDirStart := offset st in
  let centralDirSize :=
    fold_left (fun sum h => sum + Z.of_nat (length h)) (centralHeaders st) 0 in
  let parts := parts st ++ centralHeaders st in
  endOfCentralDir <- buildEndOfCentralDir (Z.of_nat (length files))
                       centralDirSize centralDirStart ;;
  let parts := parts ++ [endOfCentralDir] in
  Ok (Blob_new parts "application/zip").

(** [#compressSingleFile], lines 179-183: the file's stream piped through
    the first compression stream of the call. *)
Definition compressSingleFile (deflate : Compressor) (file : File)
  : result Blob :=
  streamToBlob (deflate 0%nat (data file)).

(** [compress], lines 185-187: [Array.isArray(files)] selects the branch. *)
Inductive input : Type :=
| AnArray (files : list File)
| ASingle (file : File).

Definition compress (deflate : Compressor) (files : input) : result Blob :=
  match files with
  | AnArray fs => createZipFromFiles deflate fs
  | ASingle f => compressSingleFile deflate f
  end.

End FileCompressor.

(** ** Specification-side definitions

    What the properties below compare the class against. *)

Module Spec.
Import JS FileCompressor.

(** The reference checksum, from the specification's words: reflected
    CRC-32, polynomial 0xEDB88320, bit by bit, register initialised to
    0xFFFFFFFF, final XOR with 0xFFFFFFFF, truncated to 32 bits. *)
Definition crc32_reference_bit (r : Z) : Z :=
  if Z.testbit r 0 then Z.lxor (Z.shiftr r 1) 0xEDB88320 else Z.shiftr r 1.

Definition crc32_reference_byte (r : Z) (b : byte) : Z :=
  Nat.iter 8 crc32_reference_bit (Z.lxor r (byte_val b)).

Definition crc32_reference (data : list byte) : Z :=
  (Z.lxor (fold_left crc32_reference_byte data 0xFFFFFFFF) 0xFFFFFFFF)
    mod 2 ^ 32.

(** The ASCII bytes of a text. *)
Definition ascii_bytes (s : string) : list byte :=
  List.map byte_of_ascii (list_ascii_of_string s).

(** The little-endian field of [width] bytes at offset [off] of a record. *)
Definition field (h : list byte) (off width : nat) : Z :=
  le_combine (take width (drop off h)).

(** The fixed layouts of the three ZIP records, field by field, each field
    little-endian at its width. *)
Definition u16 (v : Z) : list byte := le_split 2 (v mod 2 ^ 16).
Definition u32 (v : Z) : list byte := le_split 4 (v mod 2 ^ 32).

Definition localHeaderLayout (crc32 compressedSize uncompressedSize : Z)
  (filenameBytes : list byte) : list byte :=
  u32 0x04034b50 ++ u16 20 ++ u16 0 ++ u16 8 ++ u16 0 ++ u16 0 ++
  u32 crc32 ++ u32 compressedSize ++ u32 uncompressedSize ++
  u16 (Z.of_nat (length filenameBytes)) ++ u16 0 ++ filenameBytes.

Definition centralHeaderLayout (crc32 compressedSize uncompressedSize : Z)
  (filenameBytes commentBytes : list byte) (localOffset : Z) : list byte :=
  u32 0x02014b50 ++ u16 20 ++ u16 20 ++ u16 0 ++ u16 8 ++ u16 0 ++ u16 0 ++
  u32 crc32 ++ u32 compressedSize ++ u32 uncompressedSize ++
  u16 (Z.of_nat (length filenameBytes)) ++ u16 0 ++
  u16 (Z.of_nat (length commentBytes)) ++ u16 0 ++ u16 0 ++ u32 0 ++
  u32 localOffset ++ filenameBytes ++ commentBytes.

Definition endRecordLayout (entries centralDirSize centralDirStart : Z)
  : list byte :=
  u32 0x06054b50 ++ u16 0 ++ u16 0 ++ u16 entries ++ u16 entries ++
  u32 centralDirSize ++ u32 centralDirStart ++ u16 0.

(** What a readable stream delivers: all the bytes of its chunks, and the
    reason of its failure if it fails. *)
Fixpoint stream_bytes (s : ReadableStream) : list byte :=
  match s with
  | StreamDone => []
  | StreamChunk (Some v) rest => v ++ stream_bytes rest
  | StreamChunk None rest => stream_bytes rest
  | StreamErrored _ => []
  end.

Fixpoint stream_error (s : ReadableStream) : option exn :=
  match s with
  | StreamDone => None
  | StreamChunk _ rest => stream_error rest
  | StreamErrored e => Some e
  end.

(** The value of a byte sequence read as a big-endian number. *)
Definition be_combine (bs : list byte) : Z :=
  fold_left (fun acc b => acc * 256 + byte_val b) bs 0.

(** The deflate reframer, from the specification's words: an input of at
    least 6 bytes whose first byte is 0x78 is zlib-wrapped, its payload runs
    from offset 2 to length-4 and its last 4 bytes are the big-endian
    Adler-32; any other input is its own payload, with checksum 0. *)
Definition looksWrapped (wrapped : list byte) : bool :=
  (6 <=? length wrapped)%nat &&
  match wrapped with
  | b :: _ => byte_val b =? 0x78
  | [] => false
  end.

Definition reframe (wrapped : list byte) : list byte * Z :=
  if looksWrapped wrapped
  then (take (length wrapped - 4 - 2) (drop 2 wrapped),
        be_combine (drop (length wrapped - 4) wrapped))
  else (wrapped, 0).

(** Per entry: the compressor's output for the [n]-th entry, its raw
    deflate payload, and the bytes the entry occupies before the central
    directory. *)
Definition compressorOutput (deflate : Compressor) (n : nat) (f : File)
  : list byte := stream_bytes (deflate n (data f)).

Definition rawDeflate (deflate : Compressor) (n : nat) (f : File)
  : list byte := fst (reframe (compressorOutput deflate n f)).

Definition span (deflate : Compressor) (n : nat) (f : File) : Z :=
  30 + Z.of_nat (length (encodeFilename (name f)))
     + Z.of_nat (length (rawDeflate deflate n f)).

Fixpoint spans (deflate : Compressor) (n : nat) (files : list File) : Z :=
  match files with
  | [] => 0
  | f :: files' => span deflate n f + spans deflate (S n) files'
  end.

(** Lowercase hexadecimal, eight digits, most significant first, as ASCII
    bytes. *)
Definition hexChar (d : Z) : byte :=
  if d <? 10 then byte_of (48 + d) else byte_of (87 + d).

Definition hex8 (a : Z) : list byte :=
  List.map (fun k => hexChar ((a / 16 ^ Z.of_nat k) mod 16))
           [7; 6; 5; 4; 3; 2; 1; 0]%nat.

(** The [k] low hexadecimal digits of a number, most significant first. *)
Fixpoint nibbles (k : nat) (n : Z) : list Z :=
  match k with
  | O => []
  | S k' => nibbles k' (n / 16) ++ [n mod 16]
  end.

(** The two headers of the [n]-th entry, given the checksum its comment
    carries and the offset its central header records. *)
Definition entryLocalHeader (deflate : Compressor) (n : nat) (f : File)
  : list byte :=
  localHeaderLayout (calculateCRC32 (data f))
    (Z.of_nat (length (rawDeflate deflate n f)))
    (Z.of_nat (length (data f))) (encodeFilename (name f)).

Definition entryCentralHeader (deflate : Compressor) (n : nat) (f : File)
  (adler32 localOffset : Z) : list byte :=
  centralHeaderLayout (calculateCRC32 (data f))
    (Z.of_nat (length (rawDeflate deflate n f)))
    (Z.of_nat (length (data f))) (encodeFilename (name f))
    (encodeComment adler32) localOffset.

(** The entries' blocks: each local header immediately followed by the
    entry's raw deflate data, in input order. *)
Fixpoint entryBlocks (deflate : Compressor) (n : nat) (files : list File)
  : list byte :=
  match files with
  | [] => []
  | f :: files' =>
      entryLocalHeader deflate n f ++ rawDeflate deflate n f ++
      entryBlocks deflate (S n) files'
  end.

(** One iteration of the loop when the compressor delivers, as a state
    transformer, and the iterations over a list of files. *)
Definition storeAdler32 (deflate : Compressor) (n : nat) (f : File)
  (m : gmap string Z) : gmap string Z :=
  let w := compressorOutput deflate n f in
  if looksWrapped w then <[name f := snd (reframe w)]> m else m.

Definition step (deflate : Compressor) (n : nat) (f : File) (st : state)
  : state :=
  let m := storeAdler32 deflate n f (adler32Map st) in
  {| parts := parts st ++ [entryLocalHeader deflate n f; rawDeflate deflate n f];
     centralHeaders :=
       centralHeaders st ++
       [entryCentralHeader deflate n f (lookupAdler32 m (name f)) (offset st)];
     adler32Map := m;
     offset := offset st + span deflate n f |}.

Fixpoint steps (deflate : Compressor) (n : nat) (files : list File)
  (st : state) : state :=
  match files with
  | [] => st
  | f :: files' => steps deflate (S n) files' (step deflate n f st)
  end.

(** The first failure of the compressor over the entries, if any; the
    compressor delivers for a list of files when there is none. *)
Fixpoint firstError (deflate : Compressor) (n : nat) (files : list File)
  : option exn :=
  match files with
  | [] => None
  | f :: files' =>
      match stream_error (deflate n (data f)) with
      | Some e => Some e
      | None => firstError deflate (S n) files'
      end
  end.

Definition delivers (deflate : Compressor) (files : list File) : Prop :=
  forall (i : nat) (f : File),
    files !! i = Some f -> stream_error (deflate i (data f)) = None.

(** What the loop has built when it ends: the central directory, and the
    checksum the [i]-th iteration puts in its comment (line 123). *)
Definition centralDirectory (deflate : Compressor) (files : list File)
  : list (list byte) :=
  match processFiles deflate 0 files initial with
  | Ok st => centralHeaders st
  | Throw _ => []
  end.

Definition entryAdler32 (deflate : Compressor) (files : list File) (i : nat)
  : Z :=
  match processFiles deflate 0 (take (S i) files) initial, files !! i with
  | Ok st, Some f => lookupAdler32 (adler32Map st) (name f)
  | _, _ => 0
  end.

(** The end-of-central-directory record of an archive: its last 22 bytes. *)
Definition endRecord (archive : Blob) : list byte :=
  drop (length (blob_bytes archive) - 22) (blob_bytes archive).

(** The sum of the byte lengths of a list of records. *)
Definition totalLength (records : list (list byte)) : Z :=
  foldr (fun h acc => Z.of_nat (length h) + acc) 0 records.

End Spec.

(** ** Sample environments and inputs

    Compressors a conforming platform could be, and the inputs the examples
    below run on. *)

Module Sample.
Import JS FileCompressor Spec.

(** Adler-32 of a byte sequence. *)
Definition adler32_of (input : list byte) : Z :=
  let sums :=
    fold_left
      (fun (s : Z * Z) (x : byte) =>
         let a := (fst s + byte_val x) mod 65521 in
         (a, (snd s + a) mod 65521))
      input (1, 0) in
  snd sums * 65536 + fst sums.

(** One stored (uncompressed) final deflate block, for inputs below 64 KiB. *)
Definition storedBlock (input : list byte) : list byte :=
  let len := Z.of_nat (length input) in
  [x01] ++ le_split 2 len ++ le_split 2 (65535 - len) ++ input.

(** A compressor that emits a zlib stream holding one stored block, in two
    chunks. *)
Definition storedDeflate : Compressor :=
  fun _ input =>
    StreamChunk (Some ([x78; x01] ++ storedBlock input))
      (StreamChunk (Some (rev (le_split 4 (adler32_of input)))) StreamDone).

(** A compressor whose streams after the first come without the zlib
    wrapper. *)
Definition unwrappedLater : Compressor :=
  fun n input =>
    match n with
    | O => storedDeflate n input
    | S _ => StreamChunk (Some (storedBlock input)) StreamDone
    end.

(** A compressor whose second stream errors after its first chunk. *)
Definition failsSecond : Compressor :=
  fun n input =>
    match n with
    | S O => StreamChunk (Some [x78; x01])
               (StreamErrored (StreamFailure "aborted"))
    | _ => storedDeflate n input
    end.

Definition alpha : File := mkFile "alpha.txt" (ascii_bytes "alpha").
Definition bravo : File := mkFile "bravo.txt" (ascii_bytes "bravo").
Definition hello : File := mkFile "hello.txt" (ascii_bytes "hello playwright").
Definition blank : File := mkFile "empty.bin" [].

(** Two entries under one name. *)
Definition sameName : list File :=
  [mkFile "a.txt" (ascii_bytes "alpha"); mkFile "a.txt" (ascii_bytes "bravo")].

(** 65536 empty entries, and an entry whose name has 65536 characters. *)
Definition manyFiles : list File :=
  List.repeat (mkFile "" []) (Z.to_nat 65536).

Definition longNamed : File :=
  mkFile (string_of_list_ascii (List.repeat "a"%char (Z.to_nat 65536))) [].

End Sample.

(** ** The test harness

    The reassembly of a decoded stream by the repository's tests,
    lines 26-39 of the Playwright test of the single-file path. *)

Module Harness.
Import JS.

(** Lines 27-32: the chunks of a stream, in order; a rejected [read]
    rejects the evaluation. *)
Fixpoint readChunks (stream : ReadableStream) (chunks : list (list byte))
  : result (list (list byte)) :=
  match stream with
  | StreamDone => Ok chunks
  | StreamChunk value rest =>
      readChunks rest
        (match value with Some v => chunks ++ [v] | None => chunks end)
  | StreamErrored e => Throw e
  end.

(** Lines 36-39: [buffer.set(chunk, offset)] for each chunk, advancing
    [offset]; the state is the buffer and the offset. *)
Fixpoint copyChunks (chunks : list (list byte)) (buffer : list byte)
  (offset : nat) : result (list byte) :=
  match chunks with
  | [] => Ok buffer
  | chunk :: chunks' =>
      buffer <- store buffer offset chunk ;;
      copyChunks chunks' buffer (offset + length chunk)
  end.

(** Lines 33-39. *)
Definition gather (chunks : list (list byte)) : result (list byte) :=
  let size := fold_left (fun sum chunk => (sum + length chunk)%nat) chunks 0%nat in
  let buffer := ArrayBuffer_new size in
  copyChunks chunks buffer 0.

Definition collect (stream : ReadableStream) : result (list byte) :=
  chunks <- readChunks stream [] ;;
  gather chunks.

End Harness.

(** ** Reading an archive back

    What a reader of the archive computes from its bytes; the class has no
    reader of its own. *)

Module Reader.
Import JS.

(** The value of a lowercase hexadecimal digit, and of a run of them. *)
Definition hexDigitValue (b : byte) : option Z :=
  let c := byte_val b in
  if (48 <=? c) && (c <=? 57) then Some (c - 48)
  else if (97 <=? c) && (c <=? 102) then Some (c - 87)
  else None.

Definition parseHex (bs : list byte) : option Z :=
  fold_left
    (fun acc b =>
       match acc, hexDigitValue b with
       | Some v, Some d => Some (v * 16 + d)
       | _, _ => None
       end)
    bs (Some 0).

(** A number's four bytes, most significant first. *)
Definition be_split4 (v : Z) : list byte := rev (le_split 4 v).

End Reader.

(** ** Bytes and 32-bit arithmetic *)

Import JS FileCompressor Spec.

Lemma byte_val_range (b : byte) : 0 <= byte_val b < 256.
Proof.
  unfold byte_val. pose proof (Byte.to_N_bounded b) as H.
  split; [apply N2Z.is_nonneg|]. apply N.le_lteq in H. lia.
Qed.

Lemma byte_of_val (b : byte) : byte_of (byte_val b) = b.
Proof.
  unfold byte_of. rewrite Z.mod_small by apply byte_val_range.
  unfold byte_val. rewrite N2Z.id, Byte.of_to_N. reflexivity.
Qed.

Lemma byte_val_of (z : Z) : byte_val (byte_of z) = z mod 256.
Proof.
  unfold byte_of, byte_val.
  assert (Hr : 0 <= z mod 256 < 256) by (apply Z.mod_pos_bound; lia).
  destruct (Byte.of_N (Z.to_N (z mod 256))) as [b|] eqn:E.
  - apply Byte.to_of_N in E. rewrite E. lia.
  - apply Byte.of_N_None_iff in E. lia.
Qed.

Section Bits32.

(** Reasoning bit by bit: two integers with the same bits are equal. *)
Ltac bitwise i Hi :=
  apply Z.bits_inj'; intros i Hi;
  repeat first
    [ rewrite Z.lxor_spec | rewrite Z.land_spec | rewrite Z.lor_spec
    | rewrite Z.shiftr_spec by lia | rewrite Z.shiftl_spec by lia
    | rewrite Z.testbit_ones by lia ].

Lemma mod32_land (z : Z) : z mod 2 ^ 32 = Z.land z (Z.ones 32).
Proof. rewrite Z.land_ones by lia. reflexivity. Qed.

Lemma ToUint32_range (z : Z) : 0 <= ToUint32 z < 2 ^ 32.
Proof. apply Z.mod_pos_bound. lia. Qed.

Lemma ToUint32_idem (z : Z) : ToUint32 (ToUint32 z) = ToUint32 z.
Proof. unfold ToUint32. apply Z.mod_mod. lia. Qed.

Lemma ToUint32_small (z : Z) : 0 <= z < 2 ^ 32 -> ToUint32 z = z.
Proof. apply Z.mod_small. Qed.

Lemma ToUint32_ToInt32 (z : Z) : ToUint32 (ToInt32 z) = ToUint32 z.
Proof.
  unfold ToInt32, ToUint32. cbv zeta.
  destruct (z mod 2 ^ 32 <? 2 ^ 31).
  - apply Z.mod_mod. lia.
  - rewrite Zminus_mod, Z.mod_same, Z.sub_0_r, !Z.mod_mod by lia. reflexivity.
Qed.

Lemma ToUint32_lxor (a b : Z) :
  ToUint32 (Z.lxor a b) = Z.lxor (ToUint32 a) (ToUint32 b).
Proof.
  unfold ToUint32. rewrite !mod32_land. bitwise i Hi.
  destruct (Z.testbit a i), (Z.testbit b i), (Z.leb 0 i && Z.ltb i 32)%bool;
    reflexivity.
Qed.

Lemma ToUint32_land (a b : Z) :
  ToUint32 (Z.land a b) = Z.land (ToUint32 a) (ToUint32 b).
Proof.
  unfold ToUint32. rewrite !mod32_land. bitwise i Hi.
  destruct (Z.testbit a i), (Z.testbit b i), (Z.leb 0 i && Z.ltb i 32)%bool;
    reflexivity.
Qed.

Lemma ToUint32_bitxor (a b : Z) :
  ToUint32 (bitxor a b) = Z.lxor (ToUint32 a) (ToUint32 b).
Proof.
  unfold bitxor. rewrite ToUint32_ToInt32, ToUint32_lxor, !ToUint32_ToInt32.
  reflexivity.
Qed.

Lemma ToUint32_bitand (a b : Z) :
  ToUint32 (bitand a b) = Z.land (ToUint32 a) (ToUint32 b).
Proof.
  unfold bitand. rewrite ToUint32_ToInt32, ToUint32_land, !ToUint32_ToInt32.
  reflexivity.
Qed.

Lemma ToInt32_small (z : Z) : 0 <= z < 2 ^ 31 -> ToInt32 z = z.
Proof.
  intros H. unfold ToInt32. cbv zeta.
  rewrite Z.mod_small by lia.
  destruct (z <? 2 ^ 31) eqn:E; [reflexivity|]. apply Z.ltb_ge in E. lia.
Qed.

Lemma ToInt32_low (x k : Z) :
  0 <= k <= 32 -> ToInt32 x mod 2 ^ k = x mod 2 ^ k.
Proof.
  intros Hk.
  assert (Hd : (2 ^ k | 2 ^ 32)).
  { exists (2 ^ (32 - k)). rewrite <- Z.pow_add_r by lia. f_equal. lia. }
  assert (Hp : 0 < 2 ^ k) by (apply Z.pow_pos_nonneg; lia).
  unfold ToInt32. cbv zeta. destruct (x mod 2 ^ 32 <? 2 ^ 31).
  - apply Z.mod_mod_divide. exact Hd.
  - destruct Hd as [q Hq]. rewrite Hq at 2.
    replace (x mod 2 ^ 32 - q * 2 ^ k) with (x mod 2 ^ 32 + (- q) * 2 ^ k) by lia.
    rewrite Z_mod_plus_full. apply Z.mod_mod_divide. exists q. exact Hq.
Qed.

(** [x & (2^k - 1)] keeps the low [k] bits, as a non-negative number. *)
Lemma bitand_ones (x k : Z) :
  0 <= k <= 31 -> bitand x (Z.ones k) = x mod 2 ^ k.
Proof.
  intros Hk.
  assert (Hp : 0 < 2 ^ k <= 2 ^ 31).
  { split; [apply Z.pow_pos_nonneg; lia | apply Z.pow_le_mono_r; lia]. }
  assert (Ho : ToInt32 (Z.ones k) = Z.ones k).
  { apply ToInt32_small. rewrite Z.ones_equiv. lia. }
  unfold bitand. rewrite Ho, Z.land_ones, ToInt32_low by lia.
  apply ToInt32_small.
  pose proof (Z.mod_pos_bound x (2 ^ k)). lia.
Qed.

Lemma ushr_spec (a k : Z) :
  0 <= k < 32 -> ushr a k = Z.shiftr (ToUint32 a) k.
Proof. intros Hk. unfold ushr. rewrite Z.mod_small by lia. reflexivity. Qed.

Lemma ushr_range (a k : Z) : 0 <= k < 32 -> 0 <= ushr a k < 2 ^ 32.
Proof.
  intros Hk. rewrite ushr_spec by exact Hk.
  pose proof (ToUint32_range a) as Hr. rewrite Z.shiftr_div_pow2 by lia.
  assert (Hp : 0 < 2 ^ k) by (apply Z.pow_pos_nonneg; lia).
  split.
  - apply Z.div_pos; lia.
  - apply Z.div_lt_upper_bound; nia.
Qed.

Lemma ToUint32_low (x k : Z) :
  0 <= k <= 32 -> ToUint32 x mod 2 ^ k = x mod 2 ^ k.
Proof.
  intros Hk. apply Z.mod_mod_divide.
  exists (2 ^ (32 - k)). rewrite <- Z.pow_add_r by lia. f_equal. lia.
Qed.

End Bits32.

(** ** The CRC-32 engine *)

Section CRC32.

Ltac bitwise i Hi :=
  apply Z.bits_inj'; intros i Hi;
  repeat first
    [ rewrite Z.lxor_spec | rewrite Z.land_spec | rewrite Z.lor_spec
    | rewrite Z.shiftr_spec by lia | rewrite Z.shiftl_spec by lia ].

(** One round of the table loop is one bit step of the reference, on the
    unsigned reading of the signed intermediate. *)
Lemma crcTableRound_spec (c : Z) :
  ToUint32 (crcTableRound c) = crc32_reference_bit (ToUint32 c).
Proof.
  unfold crcTableRound, crc32_reference_bit, truthy.
  assert (Hb : bitand c 1 = c mod 2) by (apply (bitand_ones c 1); lia).
  assert (Hm : ToUint32 c mod 2 = c mod 2) by (apply (ToUint32_low c 1); lia).
  rewrite Hb, Z.bit0_eqb, Hm.
  assert (Hc : 0 <= c mod 2 < 2) by (apply Z.mod_pos_bound; lia).
  assert (Hs : ToUint32 (ushr c 1) = Z.shiftr (ToUint32 c) 1).
  { rewrite ToUint32_small by (apply ushr_range; lia). apply ushr_spec. lia. }
  destruct (Z.eqb_spec (c mod 2) 0) as [E0|E0],
           (Z.eqb_spec (c mod 2) 1) as [E1|E1]; cbn [negb];
    try lia; try exact Hs.
  rewrite ToUint32_bitxor, Hs. reflexivity.
Qed.

Lemma crcTableEntry_spec (i : Z) :
  ToUint32 (crcTableEntry i) = Nat.iter 8 crc32_reference_bit (ToUint32 i).
Proof.
  unfold crcTableEntry. generalize 8%nat as n. intros n.
  induction n as [|n IH]; [reflexivity|].
  rewrite !Nat.iter_succ, crcTableRound_spec.
  f_equal. exact IH.
Qed.

Lemma crcTable_lookup (k : Z) :
  0 <= k < 256 -> nth (Z.to_nat k) crcTable 0 = crcTableEntry k.
Proof.
  intros Hk. unfold crcTable.
  rewrite (nth_indep _ 0 (crcTableEntry (Z.of_nat 0)))
    by (rewrite length_map, length_seq; lia).
  rewrite (map_nth (fun i => crcTableEntry (Z.of_nat i))).
  rewrite seq_nth by lia. f_equal. lia.
Qed.

(** The bit step is linear over XOR, and shifts a register whose low bit
    is clear. *)
Lemma crc32_reference_bit_lxor (a b : Z) :
  crc32_reference_bit (Z.lxor a b) =
  Z.lxor (crc32_reference_bit a) (crc32_reference_bit b).
Proof.
  unfold crc32_reference_bit. rewrite Z.lxor_spec, Z.shiftr_lxor.
  destruct (Z.testbit a 0), (Z.testbit b 0); cbn [xorb];
    bitwise i Hi;
    destruct (Z.testbit a (i + 1)), (Z.testbit b (i + 1)),
             (Z.testbit 0xEDB88320 i); reflexivity.
Qed.

Lemma crc32_reference_bits_lxor (n : nat) (a b : Z) :
  Nat.iter n crc32_reference_bit (Z.lxor a b) =
  Z.lxor (Nat.iter n crc32_reference_bit a) (Nat.iter n crc32_reference_bit b).
Proof.
  induction n as [|n IH]; [reflexivity|].
  rewrite !Nat.iter_succ, IH. apply crc32_reference_bit_lxor.
Qed.

Lemma crc32_reference_bits_shiftl (n : nat) (y : Z) :
  Nat.iter n crc32_reference_bit (Z.shiftl y (Z.of_nat n)) = y.
Proof.
  induction n as [|n IH]; [apply Z.shiftl_0_r|].
  rewrite Nat.iter_succ_r. unfold crc32_reference_bit at 2.
  rewrite Z.shiftl_spec_low by lia.
  rewrite Z.shiftr_shiftl_l by lia.
  replace (Z.of_nat (S n) - 1) with (Z.of_nat n) by lia. exact IH.
Qed.

(** The table-driven byte step of the source computes the eight bit steps
    of the reference. *)
Lemma crc32_reference_byte_table (r : Z) (b : byte) :
  crc32_reference_byte r b =
  Z.lxor (Z.shiftr r 8)
    (Nat.iter 8 crc32_reference_bit (Z.land (Z.lxor r (byte_val b)) 255)).
Proof.
  unfold crc32_reference_byte.
  pose proof (byte_val_range b) as Hb.
  set (x := Z.lxor r (byte_val b)).
  assert (Hx : x = Z.lxor (Z.shiftl (Z.shiftr r 8) (Z.of_nat 8)) (Z.land x 255)).
  { subst x. change 255 with (Z.ones 8). change (Z.of_nat 8) with 8.
    bitwise i Hi. rewrite Z.testbit_ones by lia.
    destruct (Z.ltb_spec i 8) as [Hlt|Hge].
    - rewrite (Z.testbit_neg_r _ (i - 8)) by lia.
      replace (Z.leb 0 i) with true by (symmetry; apply Z.leb_le; lia).
      cbn [andb xorb]. rewrite Bool.andb_true_r. reflexivity.
    - rewrite Z.shiftr_spec by lia. replace (i - 8 + 8) with i by lia.
      rewrite (Z.bits_above_log2 (byte_val b) i).
      + rewrite Bool.andb_false_r.
        destruct (Z.testbit r i); reflexivity.
      + lia.
      + destruct (Z.eq_dec (byte_val b) 0) as [->|Hnz]; [cbn; lia|].
        assert (Z.log2 (byte_val b) < 8); [|lia].
        apply Z.log2_lt_pow2; lia. }
  rewrite Hx at 1.
  rewrite crc32_reference_bits_lxor, crc32_reference_bits_shiftl.
  reflexivity.
Qed.

Lemma crcUpdate_spec (crc : Z) (b : byte) :
  ToUint32 (crcUpdate crc b) = crc32_reference_byte (ToUint32 crc) b.
Proof.
  pose proof (byte_val_range b) as Hb.
  unfold crcUpdate. rewrite ToUint32_bitxor.
  rewrite (ToUint32_small (ushr crc 8)) by (apply ushr_range; lia).
  rewrite ushr_spec by lia.
  change 0xFF with (Z.ones 8). rewrite bitand_ones by lia.
  rewrite <- ToUint32_low by lia. rewrite ToUint32_bitxor.
  rewrite (ToUint32_small (byte_val b)) by lia.
  rewrite <- Z.land_ones by lia. change (Z.ones 8) with 255.
  set (k := Z.land (Z.lxor (ToUint32 crc) (byte_val b)) 255).
  assert (Hk : 0 <= k < 256).
  { subst k. change 255 with (Z.ones 8). rewrite Z.land_ones by lia.
    apply Z.mod_pos_bound. lia. }
  rewrite crcTable_lookup by exact Hk.
  rewrite crcTableEntry_spec, (ToUint32_small k) by lia.
  symmetry. apply crc32_reference_byte_table.
Qed.

Lemma crc_register_spec (data : list byte) (crc : Z) :
  ToUint32 (fold_left crcUpdate data crc) =
  fold_left crc32_reference_byte data (ToUint32 crc).
Proof.
  revert crc. induction data as [|b data IH]; intros crc; [reflexivity|].
  cbn [fold_left]. rewrite IH, crcUpdate_spec. reflexivity.
Qed.

(** C4.  For every byte sequence the CRC32 function equals the reference
    reflected CRC-32 (polynomial 0xEDB88320, initial register 0xFFFFFFFF,
    final XOR with 0xFFFFFFFF, truncated to 32 bits); the CRC of the empty
    sequence is 0 and that of the ASCII bytes of "123456789" is
    0xCBF43926. *)
Theorem calculateCRC32_is_reference_crc32 :
  (forall data : list byte, calculateCRC32 data = crc32_reference data) /\
  calculateCRC32 [] = 0 /\
  calculateCRC32 (ascii_bytes "123456789") = 0xCBF43926.
Proof.
  split; [|split; vm_compute; reflexivity].
  intros data. unfold calculateCRC32, crc32_reference.
  rewrite ushr_spec by lia. rewrite Z.shiftr_0_r.
  rewrite ToUint32_bitxor, crc_register_spec.
  fold (ToUint32 (Z.lxor (fold_left crc32_reference_byte data 0xFFFFFFFF)
                         0xFFFFFFFF)).
  rewrite ToUint32_lxor. f_equal.
  change (fold_left crc32_reference_byte data 0xFFFFFFFF)
    with (fold_left crc32_reference_byte data (ToUint32 0xFFFFFFFF)).
  rewrite <- crc_register_spec. symmetry. apply ToUint32_idem.
Qed.

End CRC32.

(** ** Buffers, views and the three records *)

Section Buffers.

Lemma store_at (pre mid post src : list byte) :
  length mid = length src ->
  store (pre ++ mid ++ post) (length pre) src = Ok (pre ++ src ++ post).
Proof.
  intros Hlen. unfold store.
  rewrite !length_app, Hlen.
  replace (length pre + length src <=? length pre + (length src + length post))%nat
    with true by (symmetry; apply Nat.leb_le; lia).
  rewrite take_app_length.
  rewrite drop_app_add'; [|reflexivity].
  rewrite <- Hlen, drop_app_length. reflexivity.
Qed.

Lemma Uint8Array_set_at (pre mid post src : list byte) :
  length mid = length src ->
  Uint8Array_set (pre ++ mid ++ post) (length pre) src =
  Ok (pre ++ src ++ post).
Proof.
  intros Hlen. unfold Uint8Array_set.
  replace (length pre <=? length (pre ++ mid ++ post))%nat
    with true by (symmetry; apply Nat.leb_le; rewrite length_app; lia).
  apply store_at. exact Hlen.
Qed.

Lemma length_le_split (n : nat) (v : Z) : length (le_split n v) = n.
Proof.
  revert v. induction n as [|n IH]; intros v; [reflexivity|].
  cbn [le_split length]. rewrite IH. reflexivity.
Qed.

Lemma le_combine_split (n : nat) (v : Z) :
  le_combine (le_split n v) = v mod 2 ^ (8 * Z.of_nat n).
Proof.
  revert v. induction n as [|n IH]; intros v.
  - cbn. rewrite Z.mod_1_r. reflexivity.
  - cbn [le_split le_combine]. rewrite IH, byte_val_of.
    replace (8 * Z.of_nat (S n)) with (8 + 8 * Z.of_nat n) by lia.
    rewrite Z.pow_add_r by lia. change (2 ^ 8) with 256.
    rewrite Z.rem_mul_r by lia. reflexivity.
Qed.

Lemma le_combine_range (bs : list byte) :
  0 <= le_combine bs < 2 ^ (8 * Z.of_nat (length bs)).
Proof.
  induction bs as [|b bs IH].
  - cbn. lia.
  - cbn [le_combine length]. pose proof (byte_val_range b) as Hb.
    replace (8 * Z.of_nat (S (length bs))) with (8 + 8 * Z.of_nat (length bs))
      by lia.
    rewrite Z.pow_add_r by lia. change (2 ^ 8) with 256. nia.
Qed.

(** The header builders never raise: every store is inside the buffer, and
    the buffer ends up holding the layout. *)
Ltac run_stores :=
  unfold writeUint32, writeUint16, DataView_setUint32, DataView_setUint16;
  cbn -[byte_of ToUint32 ToUint16 Z.div Z.modulo Z.pow Uint8Array_set
        Z.of_nat];
  rewrite ?drop_0.

Ltac set_at pre mid post src :=
  match goal with
  | |- context [Uint8Array_set ?l ?k src] =>
      change (Uint8Array_set l k src)
        with (Uint8Array_set (pre ++ mid ++ post) (length pre) src);
      rewrite (Uint8Array_set_at pre mid post src) by apply repeat_length
  end.

Ltac set_after k mid post src :=
  match goal with
  | |- context [Uint8Array_set ?l _ src] =>
      let pre := eval cbn [take firstn] in (take k l) in
      set_at pre mid post src
  end.

Lemma buildLocalHeader_layout (crc32 compressedSize uncompressedSize : Z)
  (filenameBytes : list byte) :
  buildLocalHeader crc32 compressedSize uncompressedSize filenameBytes =
  Ok (localHeaderLayout crc32 compressedSize uncompressedSize filenameBytes).
Proof.
  unfold buildLocalHeader, ArrayBuffer_new.
  rewrite repeat_app. run_stores.
  rewrite <- (app_nil_r (List.repeat x00 (length filenameBytes))).
  set_after 30%nat (List.repeat x00 (length filenameBytes)) (@nil byte)
            filenameBytes.
  rewrite take_0, app_nil_r. reflexivity.
Qed.

Lemma buildCentralHeader_layout (crc32 compressedSize uncompressedSize : Z)
  (filenameBytes commentBytes : list byte) (offset : Z) :
  buildCentralHeader crc32 compressedSize uncompressedSize filenameBytes
    commentBytes offset =
  Ok (centralHeaderLayout crc32 compressedSize uncompressedSize filenameBytes
        commentBytes offset).
Proof.
  unfold buildCentralHeader, ArrayBuffer_new.
  rewrite <- Nat.add_assoc, repeat_app, repeat_app. run_stores.
  rewrite <- (app_nil_r (List.repeat x00 (length commentBytes))).
  match goal with
  | |- context [Uint8Array_set ?l _ filenameBytes] =>
      let pre := eval cbn [take firstn] in (take 46 l) in
      set_at pre (List.repeat x00 (length filenameBytes))
             (List.repeat x00 (length commentBytes) ++ []) filenameBytes;
      cbn [bind];
      set_at (pre ++ filenameBytes) (List.repeat x00 (length commentBytes))
             (@nil byte) commentBytes
  end.
  rewrite take_0, app_nil_r, <- app_assoc. reflexivity.
Qed.

Lemma buildEndOfCentralDir_layout (filesLength centralDirSize centralDirStart : Z) :
  buildEndOfCentralDir filesLength centralDirSize centralDirStart =
  Ok (endRecordLayout filesLength centralDirSize centralDirStart).
Proof.
  unfold buildEndOfCentralDir, ArrayBuffer_new. run_stores. reflexivity.
Qed.

End Buffers.

(** ** Draining a stream *)

Section Streams.

Lemma streamToBlob_loop_spec (s : ReadableStream) (chunks : list (list byte)) :
  streamToBlob_loop s chunks =
  match stream_error s with
  | Some e => Throw e
  | None => Ok (mkBlob (concat chunks ++ stream_bytes s) "")
  end.
Proof.
  revert chunks. induction s as [|value rest IH|e]; intros chunks.
  - cbn. unfold Blob_new. rewrite app_nil_r. reflexivity.
  - cbn [streamToBlob_loop stream_error stream_bytes]. rewrite IH.
    destruct (stream_error rest); [reflexivity|].
    destruct value as [v|]; [|reflexivity].
    rewrite concat_app. cbn [concat]. rewrite app_nil_r, app_assoc.
    reflexivity.
  - reflexivity.
Qed.

Lemma streamToBlob_spec (s : ReadableStream) :
  streamToBlob s =
  match stream_error s with
  | Some e => Throw e
  | None => Ok (mkBlob (stream_bytes s) "")
  end.
Proof. unfold streamToBlob. rewrite streamToBlob_loop_spec. reflexivity. Qed.

End Streams.

(** ** The reframer *)

Section Reframer.

Lemma le_combine_rev (bs : list byte) : le_combine (rev bs) = be_combine bs.
Proof.
  unfold be_combine. induction bs as [|b bs IH] using rev_ind; [reflexivity|].
  rewrite rev_app_distr, fold_left_app. cbn [rev app le_combine fold_left].
  rewrite IH. lia.
Qed.

Lemma zlibWrapped_looksWrapped (w : list byte) : zlibWrapped w = looksWrapped w.
Proof. reflexivity. Qed.

Lemma looksWrapped_length (w : list byte) :
  looksWrapped w = true -> (6 <= length w)%nat.
Proof.
  unfold looksWrapped. intros H. apply andb_prop in H as [H _].
  apply Nat.leb_le. exact H.
Qed.

(** Stripping never raises; its payload is the reframer's, and the map
    gains the trailer exactly when the input looks wrapped. *)
Lemma stripWrapper_spec (m : gmap string Z) (nm : string) (w : list byte) :
  stripWrapper m nm w =
  Ok (if looksWrapped w then <[nm := snd (reframe w)]> m else m,
      fst (reframe w)).
Proof.
  unfold stripWrapper, reframe. rewrite zlibWrapped_looksWrapped.
  destruct (looksWrapped w) eqn:E; [|reflexivity].
  apply looksWrapped_length in E.
  unfold DataView_getUint32, ArrayBuffer_slice, endian.
  replace (length w - 4 <=? length w)%nat with true
    by (symmetry; apply Nat.leb_le; lia).
  replace (length w - 4 + 0 + 4 <=? length w)%nat with true
    by (symmetry; apply Nat.leb_le; lia).
  cbn [andb bind fst snd]. rewrite Nat.add_0_r.
  rewrite le_combine_rev.
  rewrite (take_ge (drop (length w - 4) w)) by (rewrite length_drop; lia).
  reflexivity.
Qed.

Lemma be_combine_range (bs : list byte) :
  0 <= be_combine bs < 2 ^ (8 * Z.of_nat (length bs)).
Proof.
  rewrite <- le_combine_rev, <- length_rev. apply le_combine_range.
Qed.

Lemma reframe_adler32_range (w : list byte) : 0 <= snd (reframe w) < 2 ^ 32.
Proof.
  unfold reframe. destruct (looksWrapped w) eqn:E; cbn [snd]; [|lia].
  apply looksWrapped_length in E.
  pose proof (be_combine_range (drop (length w - 4) w)) as H.
  rewrite length_drop in H.
  replace (8 * Z.of_nat (length w - (length w - 4))) with 32 in H by lia.
  exact H.
Qed.

Lemma lookupAdler32_insert (m : gmap string Z) (nm : string) (a : Z) :
  lookupAdler32 (<[nm := a]> m) nm = a.
Proof.
  unfold lookupAdler32, truthy. rewrite lookup_insert_eq.
  destruct (Z.eqb_spec a 0) as [->|]; reflexivity.
Qed.

(** On a framed input the reframer returns the framed payload and the
    big-endian value of the trailer. *)
Lemma reframe_framed (flg : byte) (payload trailer : list byte) :
  length trailer = 4%nat ->
  looksWrapped (x78 :: flg :: payload ++ trailer) = true /\
  reframe (x78 :: flg :: payload ++ trailer) = (payload, be_combine trailer).
Proof.
  intros Ht.
  assert (Hw : looksWrapped (x78 :: flg :: payload ++ trailer) = true).
  { unfold looksWrapped. apply andb_true_intro. split; [|reflexivity].
    apply Nat.leb_le. cbn [length]. rewrite length_app. lia. }
  split; [exact Hw|].
  unfold reframe. rewrite Hw. cbn [length]. rewrite length_app, Ht.
  f_equal.
  - cbn [drop].
    replace (S (S (length payload + 4)) - 4 - 2)%nat with (length payload)
      by lia.
    apply take_app_length.
  - replace (S (S (length payload + 4)) - 4)%nat
      with (length (x78 :: flg :: payload)) by (cbn [length]; lia).
    change (x78 :: flg :: payload ++ trailer)
      with ((x78 :: flg :: payload) ++ trailer).
    rewrite drop_app_length. reflexivity.
Qed.

End Reframer.

(** ** The loop over the files *)

Section Loop.

Variable deflate : Compressor.

Lemma processFile_spec (n : nat) (f : File) (st : state) :
  processFile deflate n f st =
  match stream_error (deflate n (data f)) with
  | Some e => Throw e
  | None => Ok (step deflate n f st)
  end.
Proof.
  unfold processFile. rewrite streamToBlob_spec.
  destruct (stream_error (deflate n (data f))) as [e|]; [reflexivity|].
  cbn [bind blob_bytes]. rewrite stripWrapper_spec. cbn [bind fst snd].
  rewrite buildLocalHeader_layout. cbn [bind].
  rewrite buildCentralHeader_layout. cbn [bind].
  unfold step, storeAdler32, entryLocalHeader, entryCentralHeader, span,
    rawDeflate, compressorOutput.
  reflexivity.
Qed.

Lemma processFiles_spec (files : list File) (n : nat) (st : state) :
  processFiles deflate n files st =
  match firstError deflate n files with
  | Some e => Throw e
  | None => Ok (steps deflate n files st)
  end.
Proof.
  revert n st. induction files as [|f files IH]; intros n st; [reflexivity|].
  cbn [processFiles firstError steps]. rewrite processFile_spec.
  destruct (stream_error (deflate n (data f))); [reflexivity|].
  cbn [bind]. apply IH.
Qed.

Lemma firstError_delivers_from (files : list File) (n : nat) :
  (forall i f, files !! i = Some f ->
               stream_error (deflate (n + i)%nat (data f)) = None) ->
  firstError deflate n files = None.
Proof.
  revert n. induction files as [|f files IH]; intros n H; [reflexivity|].
  cbn [firstError]. specialize (H 0%nat f eq_refl) as H0.
  rewrite Nat.add_0_r in H0. rewrite H0. apply IH.
  intros i g Hg. replace (S n + i)%nat with (n + S i)%nat by lia.
  apply H. exact Hg.
Qed.

Lemma firstError_delivers (files : list File) :
  delivers deflate files -> firstError deflate 0 files = None.
Proof. intros H. apply firstError_delivers_from. exact H. Qed.

(** A failure of any entry makes the first failing entry's error the
    loop's. *)
Lemma firstError_fails_from (files : list File) (n i : nat) (f : File) (e : exn) :
  files !! i = Some f ->
  stream_error (deflate (n + i)%nat (data f)) = Some e ->
  exists k g e',
    (k <= i)%nat /\ files !! k = Some g /\
    stream_error (deflate (n + k)%nat (data g)) = Some e' /\
    (forall j h, (j < k)%nat -> files !! j = Some h ->
                 stream_error (deflate (n + j)%nat (data h)) = None) /\
    firstError deflate n files = Some e'.
Proof.
  revert n i. induction files as [|g files IH]; intros n i Hi He;
    [discriminate|].
  cbn [firstError].
  destruct (stream_error (deflate n (data g))) as [e0|] eqn:E0.
  - exists 0%nat, g, e0. rewrite Nat.add_0_r.
    repeat split; [lia | exact E0 | intros j h Hj; lia].
  - destruct i as [|i].
    + cbn in Hi. injection Hi as ->. rewrite Nat.add_0_r in He. congruence.
    + cbn in Hi. replace (n + S i)%nat with (S n + i)%nat in He by lia.
      destruct (IH (S n) i Hi He) as (k & h & e' & Hk & Hh & Hek & Hbefore & Hfirst).
      exists (S k), h, e'.
      replace (n + S k)%nat with (S n + k)%nat by lia.
      repeat split; [lia | exact Hh | exact Hek | | exact Hfirst].
      intros j h' Hj Hh'. destruct j as [|j].
      * cbn in Hh'. injection Hh' as <-. rewrite Nat.add_0_r. exact E0.
      * cbn in Hh'. replace (n + S j)%nat with (S n + j)%nat by lia.
        apply (Hbefore j h'); [lia | exact Hh'].
Qed.

(** The first failure is decided by the streams up to it. *)
Lemma firstError_first (files : list File) (n k : nat) (g : File) (e : exn) :
  (forall j h, (j < k)%nat -> files !! j = Some h ->
               stream_error (deflate (n + j)%nat (data h)) = None) ->
  files !! k = Some g ->
  stream_error (deflate (n + k)%nat (data g)) = Some e ->
  firstError deflate n files = Some e.
Proof.
  revert n k. induction files as [|f files IH]; intros n k Hbefore Hk He;
    [discriminate|].
  cbn [firstError]. destruct k as [|k].
  - cbn in Hk. injection Hk as ->. rewrite Nat.add_0_r in He.
    rewrite He. reflexivity.
  - rewrite <- (Nat.add_0_r n) at 1.
    rewrite (Hbefore 0%nat f) by (lia || reflexivity).
    cbn in Hk. apply (IH (S n) k); [|exact Hk|].
    + intros j h Hj Hh. replace (S n + j)%nat with (n + S j)%nat by lia.
      apply Hbefore; [lia | exact Hh].
    + replace (S n + k)%nat with (n + S k)%nat by lia. exact He.
Qed.

(** *** What the iterations build *)

Lemma steps_app (l1 l2 : list File) (n : nat) (st : state) :
  steps deflate n (l1 ++ l2) st =
  steps deflate (n + length l1) l2 (steps deflate n l1 st).
Proof.
  revert n st. induction l1 as [|f l1 IH]; intros n st.
  - cbn. rewrite Nat.add_0_r. reflexivity.
  - cbn [app steps length]. rewrite IH. f_equal. lia.
Qed.

Lemma steps_offset (files : list File) (n : nat) (st : state) :
  offset (steps deflate n files st) = offset st + spans deflate n files.
Proof.
  revert n st. induction files as [|f files IH]; intros n st.
  - cbn. lia.
  - cbn [steps spans]. rewrite IH. cbn [step offset]. lia.
Qed.

Lemma steps_parts (files : list File) (n : nat) (st : state) :
  concat (parts (steps deflate n files st)) =
  concat (parts st) ++ entryBlocks deflate n files.
Proof.
  revert n st. induction files as [|f files IH]; intros n st.
  - cbn. rewrite app_nil_r. reflexivity.
  - cbn [steps entryBlocks]. rewrite IH. cbn [step parts].
    rewrite concat_app. cbn [concat]. rewrite app_nil_r, <- !app_assoc.
    reflexivity.
Qed.

Lemma steps_centralHeaders_prefix (files : list File) (n : nat) (st : state) :
  exists more,
    centralHeaders (steps deflate n files st) = centralHeaders st ++ more /\
    length more = length files.
Proof.
  revert n st. induction files as [|f files IH]; intros n st.
  - exists []. cbn. rewrite app_nil_r. split; reflexivity.
  - cbn [steps]. destruct (IH (S n) (step deflate n f st)) as (more & Hm & Hl).
    rewrite Hm. cbn [step centralHeaders]. rewrite <- app_assoc.
    eexists. split; [reflexivity|]. cbn [app length]. rewrite Hl. reflexivity.
Qed.

Lemma steps_centralHeaders_length (files : list File) :
  length (centralHeaders (steps deflate 0 files initial)) = length files.
Proof.
  destruct (steps_centralHeaders_prefix files 0 initial) as (more & Hm & Hl).
  rewrite Hm. cbn. exact Hl.
Qed.

(** The [i]-th central header records the offset reached after the first
    [i] entries and the checksum found in the map after the [i]-th. *)
Lemma steps_centralHeaders_lookup (files : list File) (i : nat) (f : File) :
  files !! i = Some f ->
  centralHeaders (steps deflate 0 files initial) !! i =
  Some (entryCentralHeader deflate i f
          (lookupAdler32
             (adler32Map (steps deflate 0 (take (S i) files) initial))
             (name f))
          (spans deflate 0 (take i files))).
Proof.
  intros Hi.
  assert (Hlt : (i < length files)%nat) by (eapply lookup_lt_Some; exact Hi).
  rewrite <- (take_drop (S i) files) at 1.
  rewrite steps_app.
  destruct (steps_centralHeaders_prefix (drop (S i) files)
              (0 + length (take (S i) files))
              (steps deflate 0 (take (S i) files) initial))
    as (more & Hm & _).
  rewrite Hm. clear Hm.
  rewrite (take_S_r files i f Hi), steps_app. cbn [steps].
  rewrite length_take, Nat.min_l by lia. cbn [Nat.add].
  cbn [step centralHeaders adler32Map].
  rewrite steps_offset. cbn [initial offset]. rewrite Z.add_0_l.
  rewrite lookup_app_l.
  2:{ rewrite length_app, steps_centralHeaders_length, length_take. cbn. lia. }
  rewrite lookup_app_r
    by (rewrite steps_centralHeaders_length, length_take; lia).
  rewrite steps_centralHeaders_length, length_take, Nat.min_l by lia.
  rewrite Nat.sub_diag. reflexivity.
Qed.

End Loop.

(** ** Reading the records back *)

Section Layouts.

Lemma le_combine_u32 (v : Z) : le_combine (u32 v) = v mod 2 ^ 32.
Proof.
  unfold u32. rewrite le_combine_split. change (8 * Z.of_nat 4) with 32.
  apply Z.mod_mod. lia.
Qed.

Lemma le_combine_u16 (v : Z) : le_combine (u16 v) = v mod 2 ^ 16.
Proof.
  unfold u16. rewrite le_combine_split. change (8 * Z.of_nat 2) with 16.
  apply Z.mod_mod. lia.
Qed.

Ltac read_field :=
  unfold field, u16, u32; cbn [le_split app drop take];
  rewrite ?take_0;
  lazymatch goal with
  | |- le_combine [byte_of (?v mod 2 ^ 32); _; _; _] = _ =>
      exact (le_combine_u32 v)
  | |- le_combine [byte_of (?v mod 2 ^ 16); _] = _ =>
      exact (le_combine_u16 v)
  end.

Lemma localHeaderLayout_length (crc cs us : Z) (fnb : list byte) :
  length (localHeaderLayout crc cs us fnb) = (30 + length fnb)%nat.
Proof. reflexivity. Qed.

Lemma centralHeaderLayout_length (crc cs us : Z) (fnb cb : list byte) (off : Z) :
  length (centralHeaderLayout crc cs us fnb cb off) =
  (46 + length fnb + length cb)%nat.
Proof.
  unfold centralHeaderLayout, u16, u32. cbn [le_split app length].
  rewrite length_app. lia.
Qed.

Lemma endRecordLayout_length (n size start : Z) :
  length (endRecordLayout n size start) = 22%nat.
Proof. reflexivity. Qed.

(** The fields of a local file header, whatever follows it. *)
Lemma localHeaderLayout_fields (crc cs us : Z) (fnb rest : list byte) :
  let h := localHeaderLayout crc cs us fnb ++ rest in
  field h 0 4 = 0x04034b50 /\ field h 4 2 = 20 /\ field h 6 2 = 0 /\
  field h 8 2 = 8 /\ field h 10 2 = 0 /\ field h 12 2 = 0 /\
  field h 14 4 = crc mod 2 ^ 32 /\ field h 18 4 = cs mod 2 ^ 32 /\
  field h 22 4 = us mod 2 ^ 32 /\
  field h 26 2 = Z.of_nat (length fnb) mod 2 ^ 16 /\ field h 28 2 = 0 /\
  take (length fnb) (drop 30 h) = fnb /\
  drop (30 + length fnb) h = rest.
Proof.
  cbv zeta. unfold localHeaderLayout.
  repeat split; try read_field.
  - unfold u16, u32. cbn [le_split app drop]. apply take_app_length.
  - unfold u16, u32. cbn [le_split app drop Nat.add]. apply drop_app_length.
Qed.

Lemma centralHeaderLayout_fields (crc cs us : Z) (fnb cb : list byte) (off : Z)
  (rest : list byte) :
  let h := centralHeaderLayout crc cs us fnb cb off ++ rest in
  field h 0 4 = 0x02014b50 /\ field h 4 2 = 20 /\ field h 6 2 = 20 /\
  field h 8 2 = 0 /\ field h 10 2 = 8 /\ field h 12 2 = 0 /\
  field h 14 2 = 0 /\
  field h 16 4 = crc mod 2 ^ 32 /\ field h 20 4 = cs mod 2 ^ 32 /\
  field h 24 4 = us mod 2 ^ 32 /\
  field h 28 2 = Z.of_nat (length fnb) mod 2 ^ 16 /\ field h 30 2 = 0 /\
  field h 32 2 = Z.of_nat (length cb) mod 2 ^ 16 /\
  field h 34 2 = 0 /\ field h 36 2 = 0 /\ field h 38 4 = 0 /\
  field h 42 4 = off mod 2 ^ 32 /\
  take (length fnb) (drop 46 h) = fnb /\
  take (length cb) (drop (46 + length fnb) h) = cb.
Proof.
  cbv zeta. unfold centralHeaderLayout.
  repeat split; try read_field.
  - unfold u16, u32. cbn [le_split app drop]. rewrite <- app_assoc.
    apply take_app_length.
  - unfold u16, u32. cbn [le_split app drop Nat.add]. rewrite <- app_assoc.
    rewrite drop_app_length. apply take_app_length.
Qed.

Lemma endRecordLayout_fields (n size start : Z) :
  let h := endRecordLayout n size start in
  field h 0 4 = 0x06054b50 /\ field h 4 2 = 0 /\ field h 6 2 = 0 /\
  field h 8 2 = n mod 2 ^ 16 /\ field h 10 2 = n mod 2 ^ 16 /\
  field h 12 4 = size mod 2 ^ 32 /\ field h 16 4 = start mod 2 ^ 32 /\
  field h 20 2 = 0.
Proof.
  cbv zeta. unfold endRecordLayout. repeat split; read_field.
Qed.

Lemma centralHeaderLayout_comment (crc cs us : Z) (fnb cb : list byte) (off : Z) :
  drop (46 + length fnb) (centralHeaderLayout crc cs us fnb cb off) = cb.
Proof.
  unfold centralHeaderLayout, u16, u32. cbn [le_split app drop Nat.add].
  apply drop_app_length.
Qed.

End Layouts.

(** ** The comment: eight hexadecimal digits *)

Section Comment.

Lemma list_ascii_of_string_append (s1 s2 : string) :
  list_ascii_of_string (s1 +:+ s2) =
  list_ascii_of_string s1 ++ list_ascii_of_string s2.
Proof.
  induction s1 as [|c s1 IH]; [reflexivity|].
  simpl. rewrite IH. reflexivity.
Qed.

Lemma string_length_list (s : string) :
  String.length s = length (list_ascii_of_string s).
Proof.
  induction s as [|c s IH]; [reflexivity|].
  simpl. rewrite IH. reflexivity.
Qed.

Lemma String_padStart_list (s : string) (k : nat) (c : ascii) :
  list_ascii_of_string (String_padStart s k c) =
  List.repeat c (k - length (list_ascii_of_string s))
  ++ list_ascii_of_string s.
Proof.
  unfold String_padStart.
  rewrite list_ascii_of_string_append, list_ascii_of_string_of_list_ascii,
    string_length_list.
  reflexivity.
Qed.

Lemma nibbles_zero (k : nat) : nibbles k 0 = List.repeat 0 k.
Proof.
  induction k as [|k IH]; [reflexivity|].
  cbn [nibbles]. change (0 / 16) with 0. change (0 mod 16) with 0.
  rewrite IH. symmetry. apply repeat_cons.
Qed.

Lemma nibbles_range (k : nat) (n : Z) :
  Forall (fun d => 0 <= d < 16) (nibbles k n).
Proof.
  revert n. induction k as [|k IH]; intros n; cbn [nibbles].
  - constructor.
  - apply Forall_app. split; [apply IH|].
    constructor; [apply Z.mod_pos_bound; lia | constructor].
Qed.

(** The digit loop yields the significant digits; padding them on the left
    gives all [k] digits. *)
Lemma toString16_digits_spec (k : nat) :
  forall (n : Z) (fuel : nat) (acc : string),
    0 <= n < 16 ^ Z.of_nat k -> n < 16 ^ Z.of_nat fuel ->
    exists t : list ascii,
      list_ascii_of_string (toString16_digits fuel n acc) =
      t ++ list_ascii_of_string acc /\
      (length t <= k)%nat /\
      List.repeat "0"%char (k - length t) ++ t =
      List.map hexDigit (nibbles k n).
Proof.
  induction k as [|k IH]; intros n fuel acc Hn Hfuel.
  - assert (n = 0) by (cbn in Hn; lia). subst n.
    exists []. destruct fuel; repeat split; reflexivity.
  - assert (Hzero : forall fuel',
               toString16_digits fuel' 0 acc = acc)
      by (intros [|?]; reflexivity).
    assert (Hz : n = 0 ->
      exists t : list ascii,
        list_ascii_of_string (toString16_digits fuel n acc) =
        t ++ list_ascii_of_string acc /\
        (length t <= S k)%nat /\
        List.repeat "0"%char (S k - length t) ++ t =
        List.map hexDigit (nibbles (S k) n)).
    { intros ->. exists []. rewrite Hzero. repeat split.
      - cbn [length]. lia.
      - rewrite nibbles_zero, app_nil_r. cbn [length]. rewrite Nat.sub_0_r.
        rewrite map_repeat. reflexivity. }
    destruct (Z.eq_dec n 0) as [E|E]; [apply Hz; exact E|].
    destruct fuel as [|fuel]; [apply Hz; cbn in Hfuel; lia|].
    cbn [toString16_digits]. destruct (Z.eqb_spec n 0) as [|_]; [contradiction|].
    rewrite Nat2Z.inj_succ, Z.pow_succ_r in Hn, Hfuel by lia.
    destruct (IH (n / 16) fuel (String (hexDigit (n mod 16)) acc))
      as (t & Ht & Hlen & Hpad).
    { split; [apply Z.div_pos; lia | apply Z.div_lt_upper_bound; lia]. }
    { apply Z.div_lt_upper_bound; lia. }
    exists (t ++ [hexDigit (n mod 16)]). rewrite Ht. repeat split.
    + cbn [list_ascii_of_string]. rewrite <- app_assoc. reflexivity.
    + rewrite length_app. cbn [length]. lia.
    + rewrite length_app. cbn [length nibbles].
      replace (S k - (length t + 1))%nat with (k - length t)%nat by lia.
      rewrite app_assoc, Hpad, map_app. reflexivity.
Qed.

Lemma Number_toString16_padded (a : Z) :
  0 <= a < 2 ^ 32 ->
  list_ascii_of_string (String_padStart (Number_toString16 a) 8 "0") =
  List.map hexDigit (nibbles 8 a).
Proof.
  intros Ha. rewrite String_padStart_list. unfold Number_toString16.
  destruct (Z.eqb_spec a 0) as [->|Hnz]; [reflexivity|].
  destruct (toString16_digits_spec 8 a (S (Z.to_nat (Z.log2 a))) EmptyString)
    as (t & Ht & _ & Hpad).
  - change (16 ^ Z.of_nat 8) with (2 ^ 32). exact Ha.
  - assert (Hpos : 0 < a) by lia.
    pose proof (Z.log2_spec a Hpos) as [_ Hlog].
    pose proof (Z.log2_nonneg a) as Hl.
    rewrite Nat2Z.inj_succ, Z2Nat.id by lia.
    eapply Z.lt_le_trans; [exact Hlog|].
    apply Z.pow_le_mono_l. lia.
  - rewrite Ht. cbn [list_ascii_of_string]. rewrite app_nil_r. exact Hpad.
Qed.

Lemma hexDigit_utf8 (d : Z) :
  0 <= d < 16 ->
  utf8_of_code_unit (Z.of_N (N_of_ascii (hexDigit d))) = [hexChar d].
Proof.
  intros Hd.
  assert (H : d = 0 \/ d = 1 \/ d = 2 \/ d = 3 \/ d = 4 \/ d = 5 \/ d = 6 \/
              d = 7 \/ d = 8 \/ d = 9 \/ d = 10 \/ d = 11 \/ d = 12 \/
              d = 13 \/ d = 14 \/ d = 15) by lia.
  repeat (destruct H as [->|H]; [vm_compute; reflexivity|]).
  subst d. vm_compute. reflexivity.
Qed.

Lemma hex8_nibbles (a : Z) : hex8 a = List.map hexChar (nibbles 8 a).
Proof.
  unfold hex8. cbn [nibbles List.map app].
  rewrite !Z.div_div by lia. cbn [Z.of_nat Pos.of_succ_nat Pos.succ].
  rewrite Z.pow_0_r, Z.div_1_r, Z.pow_1_r.
  reflexivity.
Qed.

(** The comment of lines 124-125 is the eight lowercase hexadecimal digits
    of the checksum, in ASCII. *)
Lemma encodeComment_hex8 (a : Z) :
  0 <= a < 2 ^ 32 -> encodeComment a = hex8 a.
Proof.
  intros Ha. unfold encodeComment, TextEncoder_encode.
  rewrite Number_toString16_padded by exact Ha.
  rewrite hex8_nibbles.
  pose proof (nibbles_range 8 a) as Hr.
  induction Hr as [|d ds Hd _ IH]; [reflexivity|].
  cbn [List.map flat_map]. rewrite hexDigit_utf8 by exact Hd.
  rewrite IH. reflexivity.
Qed.

Lemma hex8_length (a : Z) : length (hex8 a) = 8%nat.
Proof. reflexivity. Qed.

End Comment.

(** ** The archive *)

Section Archive.

Variable deflate : Compressor.

Lemma fold_left_lengths (l : list (list byte)) (a : Z) :
  fold_left (fun sum h => sum + Z.of_nat (length h)) l a =
  a + Z.of_nat (length (concat l)).
Proof.
  revert a. induction l as [|h l IH]; intros a.
  - cbn. lia.
  - cbn [fold_left concat]. rewrite IH, length_app. lia.
Qed.

Lemma centralDirectory_delivers (files : list File) :
  firstError deflate 0 files = None ->
  centralDirectory deflate files =
  centralHeaders (steps deflate 0 files initial).
Proof.
  intros H. unfold centralDirectory. rewrite processFiles_spec, H.
  reflexivity.
Qed.

(** The whole of [#createZipFromFiles]: the first failure, or the blob. *)
Lemma createZipFromFiles_spec (files : list File) :
  createZipFromFiles deflate files =
  match firstError deflate 0 files with
  | Some e => Throw e
  | None =>
      Ok (mkBlob
            (entryBlocks deflate 0 files ++
             concat (centralDirectory deflate files) ++
             endRecordLayout (Z.of_nat (length files))
               (Z.of_nat (length (concat (centralDirectory deflate files))))
               (spans deflate 0 files))
            "application/zip")
  end.
Proof.
  unfold createZipFromFiles. rewrite processFiles_spec.
  destruct (firstError deflate 0 files) as [e|] eqn:E; [reflexivity|].
  cbn [bind]. rewrite buildEndOfCentralDir_layout. cbn [bind].
  rewrite centralDirectory_delivers by exact E.
  unfold Blob_new. rewrite fold_left_lengths, Z.add_0_l.
  rewrite steps_offset. cbn [initial offset]. rewrite Z.add_0_l.
  rewrite !concat_app, steps_parts. cbn [initial parts concat].
  rewrite app_nil_r, <- app_assoc. reflexivity.
Qed.

Lemma entryBlocks_app (l1 l2 : list File) (n : nat) :
  entryBlocks deflate n (l1 ++ l2) =
  entryBlocks deflate n l1 ++ entryBlocks deflate (n + length l1) l2.
Proof.
  revert n. induction l1 as [|f l1 IH]; intros n.
  - cbn. rewrite Nat.add_0_r. reflexivity.
  - cbn [app entryBlocks length]. rewrite IH, <- !app_assoc.
    do 3 f_equal. f_equal. lia.
Qed.

Lemma entryLocalHeader_length (n : nat) (f : File) :
  length (entryLocalHeader deflate n f) =
  (30 + length (encodeFilename (name f)))%nat.
Proof. unfold entryLocalHeader. apply localHeaderLayout_length. Qed.

(** The blocks of the entries fill exactly the bytes the offsets count. *)
Lemma entryBlocks_length (files : list File) (n : nat) :
  Z.of_nat (length (entryBlocks deflate n files)) = spans deflate n files.
Proof.
  revert n. induction files as [|f files IH]; intros n; [reflexivity|].
  cbn [entryBlocks spans]. rewrite !length_app, entryLocalHeader_length.
  rewrite !Nat2Z.inj_add, IH. unfold span. lia.
Qed.

Lemma spans_nonneg (files : list File) (n : nat) : 0 <= spans deflate n files.
Proof. rewrite <- entryBlocks_length. lia. Qed.

(** The block of the [i]-th entry starts at the offset of the entries
    before it. *)
Lemma entryBlocks_at (files : list File) (i : nat) (f : File) :
  files !! i = Some f ->
  drop (Z.to_nat (spans deflate 0 (take i files))) (entryBlocks deflate 0 files) =
  entryLocalHeader deflate i f ++ rawDeflate deflate i f ++
  entryBlocks deflate (S i) (drop (S i) files).
Proof.
  intros Hi.
  assert (Hlt : (i < length files)%nat) by (eapply lookup_lt_Some; exact Hi).
  rewrite <- (take_drop i files) at 2.
  rewrite entryBlocks_app, <- entryBlocks_length, Nat2Z.id, drop_app_length.
  rewrite length_take, Nat.min_l by lia. cbn [Nat.add].
  rewrite (drop_S files f i Hi). reflexivity.
Qed.

Lemma archive_at (files : list File) (i : nat) (f : File) (tail : list byte) :
  files !! i = Some f ->
  drop (Z.to_nat (spans deflate 0 (take i files)))
       (entryBlocks deflate 0 files ++ tail) =
  entryLocalHeader deflate i f ++ rawDeflate deflate i f ++
  entryBlocks deflate (S i) (drop (S i) files) ++ tail.
Proof.
  intros Hi.
  rewrite drop_app_le.
  - rewrite (entryBlocks_at files i f Hi), <- !app_assoc. reflexivity.
  - rewrite <- (take_drop i files) at 2.
    rewrite entryBlocks_app, length_app, <- entryBlocks_length, Nat2Z.id. lia.
Qed.

Lemma totalLength_concat (records : list (list byte)) :
  totalLength records = Z.of_nat (length (concat records)).
Proof.
  induction records as [|h records IH]; [reflexivity|].
  cbn [totalLength foldr concat]. fold (totalLength records).
  rewrite IH, length_app. lia.
Qed.

Lemma endRecord_of_archive (body : list byte) (n size start : Z) (type : string) :
  endRecord (mkBlob (body ++ endRecordLayout n size start) type) =
  endRecordLayout n size start.
Proof.
  unfold endRecord. cbn [blob_bytes].
  rewrite length_app, endRecordLayout_length.
  replace (length body + 22 - 22)%nat with (length body) by lia.
  apply drop_app_length.
Qed.

Lemma firstError_take (files : list File) (n k : nat) :
  firstError deflate n files = None ->
  firstError deflate n (take k files) = None.
Proof.
  revert n k. induction files as [|f files IH]; intros n k H.
  - rewrite take_nil. reflexivity.
  - destruct k as [|k]; [reflexivity|].
    cbn [take firstError] in *.
    destruct (stream_error (deflate n (data f))); [discriminate|].
    apply IH. exact H.
Qed.

(** The checksum of the [i]-th iteration, in terms of the iterations. *)
Lemma entryAdler32_delivers (files : list File) (i : nat) (f : File) :
  firstError deflate 0 files = None -> files !! i = Some f ->
  entryAdler32 deflate files i =
  lookupAdler32 (adler32Map (steps deflate 0 (take (S i) files) initial))
                (name f).
Proof.
  intros H Hi. unfold entryAdler32.
  rewrite processFiles_spec, (firstError_take files 0 (S i) H), Hi.
  reflexivity.
Qed.

Lemma steps_take_S (files : list File) (i : nat) (f : File) :
  files !! i = Some f ->
  steps deflate 0 (take (S i) files) initial =
  step deflate i f (steps deflate 0 (take i files) initial).
Proof.
  intros Hi.
  assert (Hlt : (i < length files)%nat) by (eapply lookup_lt_Some; exact Hi).
  rewrite (take_S_r files i f Hi), steps_app. cbn [steps].
  rewrite length_take, Nat.min_l by lia. reflexivity.
Qed.

(** Every checksum in the map is a 32-bit trailer. *)
Lemma steps_adler32Map_range (files : list File) (n : nat) (st : state) :
  (forall nm v, adler32Map st !! nm = Some v -> 0 <= v < 2 ^ 32) ->
  forall nm v,
    adler32Map (steps deflate n files st) !! nm = Some v -> 0 <= v < 2 ^ 32.
Proof.
  revert n st. induction files as [|f files IH]; intros n st Hst; [exact Hst|].
  cbn [steps]. apply IH. cbn [step adler32Map]. unfold storeAdler32.
  intros nm v. destruct (looksWrapped (compressorOutput deflate n f)).
  - rewrite lookup_insert. destruct (decide (name f = nm)) as [_|_].
    + intros [= <-]. apply reframe_adler32_range.
    + apply Hst.
  - apply Hst.
Qed.

Lemma lookupAdler32_range (m : gmap string Z) (nm : string) :
  (forall k v, m !! k = Some v -> 0 <= v < 2 ^ 32) ->
  0 <= lookupAdler32 m nm < 2 ^ 32.
Proof.
  intros Hm. unfold lookupAdler32.
  destruct (m !! nm) as [a|] eqn:E; [|lia].
  destruct (truthy a); [apply (Hm nm a E) | lia].
Qed.

Lemma entryAdler32_range (files : list File) (i : nat) :
  0 <= entryAdler32 deflate files i < 2 ^ 32.
Proof.
  unfold entryAdler32. rewrite processFiles_spec.
  destruct (firstError deflate 0 (take (S i) files)); [lia|].
  destruct (files !! i); [|lia].
  apply lookupAdler32_range, steps_adler32Map_range.
  intros nm v. cbn [initial adler32Map]. rewrite lookup_empty. discriminate.
Qed.

Lemma calculateCRC32_range (input : list byte) :
  0 <= calculateCRC32 input < 2 ^ 32.
Proof. unfold calculateCRC32. apply ushr_range. lia. Qed.

(** The archive of a list of files for which the compressor delivers. *)
Lemma compress_array_spec (files : list File) :
  delivers deflate files ->
  compress deflate (AnArray files) =
  Ok (mkBlob
        (entryBlocks deflate 0 files ++
         concat (centralDirectory deflate files) ++
         endRecordLayout (Z.of_nat (length files))
           (Z.of_nat (length (concat (centralDirectory deflate files))))
           (spans deflate 0 files))
        "application/zip") /\
  length (centralDirectory deflate files) = length files /\
  forall (i : nat) (f : File),
    files !! i = Some f ->
    centralDirectory deflate files !! i =
    Some (entryCentralHeader deflate i f (entryAdler32 deflate files i)
            (spans deflate 0 (take i files))).
Proof.
  intros Hd. apply firstError_delivers in Hd.
  cbn [compress]. rewrite createZipFromFiles_spec, Hd.
  split; [reflexivity|].
  rewrite centralDirectory_delivers by exact Hd.
  split; [apply steps_centralHeaders_length|].
  intros i f Hi.
  rewrite (entryAdler32_delivers files i f Hd Hi).
  apply steps_centralHeaders_lookup. exact Hi.
Qed.

(** The [i]-th central header, once more with its file. *)
Lemma centralDirectory_lookup (files : list File) (i : nat) (ch : list byte) :
  delivers deflate files ->
  centralDirectory deflate files !! i = Some ch ->
  exists f,
    files !! i = Some f /\
    ch = entryCentralHeader deflate i f (entryAdler32 deflate files i)
           (spans deflate 0 (take i files)).
Proof.
  intros Hd Hch.
  destruct (compress_array_spec files Hd) as (_ & Hlen & Hlook).
  assert (Hlt : (i < length files)%nat).
  { rewrite <- Hlen. eapply lookup_lt_Some. exact Hch. }
  destruct (lookup_lt_is_Some_2 files i Hlt) as [f Hf].
  exists f. split; [exact Hf|].
  rewrite (Hlook i f Hf) in Hch. injection Hch as <-. reflexivity.
Qed.

End Archive.

(** The checksum of an iteration whose stream looks wrapped is that
    stream's trailer. *)
Lemma entryAdler32_wrapped (deflate : Compressor) (files : list File)
  (i : nat) (f : File) :
  delivers deflate files -> files !! i = Some f ->
  looksWrapped (compressorOutput deflate i f) = true ->
  entryAdler32 deflate files i = snd (reframe (compressorOutput deflate i f)).
Proof.
  intros Hd Hi Hw. apply firstError_delivers in Hd.
  rewrite (entryAdler32_delivers deflate files i f Hd Hi).
  rewrite (steps_take_S deflate files i f Hi).
  cbn [step adler32Map]. unfold storeAdler32. rewrite Hw.
  apply lookupAdler32_insert.
Qed.

(** The local file header of the [i]-th entry as it lies in the archive, at
    the offset of the entries before it. *)
Lemma local_header_in_archive (deflate : Compressor) (files : list File)
  (i : nat) (f : File) :
  delivers deflate files -> files !! i = Some f ->
  exists archive : Blob,
    compress deflate (AnArray files) = Ok archive /\
    let h := drop (Z.to_nat (spans deflate 0 (take i files)))
                  (blob_bytes archive) in
    let filenameBytes := encodeFilename (name f) in
    let compressedData := rawDeflate deflate i f in
    field h 0 4 = 0x04034b50 /\ field h 4 2 = 20 /\ field h 6 2 = 0 /\
    field h 8 2 = 8 /\ field h 10 2 = 0 /\ field h 12 2 = 0 /\
    field h 14 4 = calculateCRC32 (data f) /\
    field h 18 4 = Z.of_nat (length compressedData) mod 2 ^ 32 /\
    field h 22 4 = Z.of_nat (length (data f)) mod 2 ^ 32 /\
    field h 26 2 = Z.of_nat (length filenameBytes) mod 2 ^ 16 /\
    field h 28 2 = 0 /\
    take (length filenameBytes) (drop 30 h) = filenameBytes /\
    take (length compressedData) (drop (30 + length filenameBytes) h) =
      compressedData.
Proof.
  intros Hd Hi.
  destruct (compress_array_spec deflate files Hd) as (Hc & _ & _).
  eexists. split; [exact Hc|].
  cbv zeta. cbn [blob_bytes].
  rewrite (archive_at deflate files i f _ Hi).
  unfold entryLocalHeader.
  match goal with
  | |- context [localHeaderLayout ?crc ?cs ?us ?fnb ++ ?rest] =>
      pose proof (localHeaderLayout_fields crc cs us fnb rest) as F
  end.
  cbv zeta in F.
  destruct F as (F0&F4&F6&F8&F10&F12&F14&F18&F22&F26&F28&Fname&Frest).
  rewrite Z.mod_small in F14 by apply calculateCRC32_range.
  repeat split; try assumption.
  rewrite Frest. apply take_app_length.
Qed.

(** The name of the long-named sample entry encodes to as many bytes as it
    has characters. *)
Lemma TextEncoder_encode_repeat_a (n : nat) :
  TextEncoder_encode (string_of_list_ascii (List.repeat "a"%char n)) =
  List.repeat "a"%byte n.
Proof.
  unfold TextEncoder_encode. rewrite list_ascii_of_string_of_list_ascii.
  induction n as [|n IH]; [reflexivity|].
  cbn [List.repeat flat_map]. rewrite IH. reflexivity.
Qed.

Lemma longNamed_name_length :
  Z.of_nat (length (encodeFilename (name Sample.longNamed))) = 65536.
Proof.
  unfold Sample.longNamed, encodeFilename. cbn [name].
  rewrite TextEncoder_encode_repeat_a, repeat_length. apply Z2Nat.id. lia.
Qed.

Lemma storedDeflate_delivers (files : list File) :
  delivers Sample.storedDeflate files.
Proof. intros i f _. reflexivity. Qed.

(** ** Properties of the archive *)

Section Claims.

Import Sample.

(** C1.  When the compressor delivers for every entry, [compress] on a list
    of files returns the bytes of each entry's local file header immediately
    followed by its raw deflate data, in input order, then the central
    directory headers in the same order, then the one end-of-central-directory
    record, typed application/zip. *)
Theorem compress_archive_is_ordered_concatenation
  (deflate : Compressor) (files : list File) :
  delivers deflate files ->
  compress deflate (AnArray files) =
  Ok (mkBlob
        (entryBlocks deflate 0 files ++
         concat (centralDirectory deflate files) ++
         endRecordLayout (Z.of_nat (length files))
           (Z.of_nat (length (concat (centralDirectory deflate files))))
           (spans deflate 0 files))
        "application/zip") /\
  length (centralDirectory deflate files) = length files /\
  forall (i : nat) (f : File),
    files !! i = Some f ->
    centralDirectory deflate files !! i =
    Some (entryCentralHeader deflate i f (entryAdler32 deflate files i)
            (spans deflate 0 (take i files))).
Proof. apply compress_array_spec. Qed.

Lemma compress_archive_is_ordered_concatenation_witness :
  delivers storedDeflate [alpha; bravo] /\
  compress storedDeflate (AnArray [alpha; bravo]) =
  Ok (mkBlob
        (entryBlocks storedDeflate 0 [alpha; bravo] ++
         concat (centralDirectory storedDeflate [alpha; bravo]) ++
         endRecordLayout 2
           (Z.of_nat (length (concat (centralDirectory storedDeflate
                                        [alpha; bravo]))))
           (spans storedDeflate 0 [alpha; bravo]))
        "application/zip").
Proof.
  assert (H : delivers storedDeflate [alpha; bravo])
    by (intros i f _; reflexivity).
  split; [exact H|].
  exact (proj1 (compress_archive_is_ordered_concatenation
                  storedDeflate [alpha; bravo] H)).
Defined.

(** C2, as the code has it.  The offset recorded in the central header of
    entry [i] is the sum over the entries before it of 30 + filename bytes +
    compressed size, reduced modulo 2^32; the end record's central-directory
    start is that sum over all entries (the number of bytes up to the end of
    the last entry's data) modulo 2^32, its central-directory size is the
    sum of the central headers' lengths modulo 2^32, and both entry counts
    are the number of entries modulo 2^16. *)
Theorem recorded_offsets_sizes_and_counts
  (deflate : Compressor) (files : list File) :
  delivers deflate files ->
  exists archive : Blob,
    compress deflate (AnArray files) = Ok archive /\
    (forall (i : nat) (ch : list byte),
        centralDirectory deflate files !! i = Some ch ->
        field ch 42 4 = spans deflate 0 (take i files) mod 2 ^ 32) /\
    spans deflate 0 files = Z.of_nat (length (entryBlocks deflate 0 files)) /\
    field (endRecord archive) 16 4 = spans deflate 0 files mod 2 ^ 32 /\
    field (endRecord archive) 12 4 =
      totalLength (centralDirectory deflate files) mod 2 ^ 32 /\
    field (endRecord archive) 8 2 = Z.of_nat (length files) mod 2 ^ 16 /\
    field (endRecord archive) 10 2 = Z.of_nat (length files) mod 2 ^ 16.
Proof.
  intros Hd.
  destruct (compress_array_spec deflate files Hd) as (Hc & Hlen & Hch).
  eexists. split; [exact Hc|].
  rewrite app_assoc, endRecord_of_archive.
  destruct (endRecordLayout_fields (Z.of_nat (length files))
              (Z.of_nat (length (concat (centralDirectory deflate files))))
              (spans deflate 0 files))
    as (_ & _ & _ & Hn1 & Hn2 & Hsize & Hstart & _).
  repeat split.
  - intros i ch Hi.
    destruct (centralDirectory_lookup deflate files i ch Hd Hi) as (f & _ & ->).
    unfold entryCentralHeader.
    match goal with
    | |- field (centralHeaderLayout ?crc ?cs ?us ?fnb ?cb ?off) _ _ = _ =>
        pose proof (centralHeaderLayout_fields crc cs us fnb cb off []) as F
    end.
    cbv zeta in F. rewrite app_nil_r in F.
    destruct F as (_&_&_&_&_&_&_&_&_&_&_&_&_&_&_&_&F&_).
    exact F.
  - symmetry. apply entryBlocks_length.
  - exact Hstart.
  - rewrite totalLength_concat. exact Hsize.
  - exact Hn1.
  - exact Hn2.
Qed.

Lemma recorded_offsets_sizes_and_counts_witness :
  delivers storedDeflate [alpha; bravo] /\
  exists archive : Blob,
    compress storedDeflate (AnArray [alpha; bravo]) = Ok archive /\
    (forall (i : nat) (ch : list byte),
        centralDirectory storedDeflate [alpha; bravo] !! i = Some ch ->
        field ch 42 4 = spans storedDeflate 0 (take i [alpha; bravo]) mod 2 ^ 32) /\
    spans storedDeflate 0 [alpha; bravo] =
      Z.of_nat (length (entryBlocks storedDeflate 0 [alpha; bravo])) /\
    field (endRecord archive) 16 4 =
      spans storedDeflate 0 [alpha; bravo] mod 2 ^ 32 /\
    field (endRecord archive) 12 4 =
      totalLength (centralDirectory storedDeflate [alpha; bravo]) mod 2 ^ 32 /\
    field (endRecord archive) 8 2 = 2 mod 2 ^ 16 /\
    field (endRecord archive) 10 2 = 2 mod 2 ^ 16.
Proof.
  assert (H : delivers storedDeflate [alpha; bravo])
    by (intros i f _; reflexivity).
  split; [exact H|].
  exact (recorded_offsets_sizes_and_counts storedDeflate [alpha; bravo] H).
Defined.

(** C2 as stated fails on 65536 entries: the archive is built, and its
    16-bit entry-count fields hold 0, not the number of entries. *)
Lemma entry_count_wraps_at_65536 :
  exists archive : Blob,
    compress storedDeflate (AnArray manyFiles) = Ok archive /\
    Z.of_nat (length manyFiles) = 65536 /\
    field (endRecord archive) 8 2 = 0 /\
    field (endRecord archive) 10 2 = 0 /\
    field (endRecord archive) 8 2 <> Z.of_nat (length manyFiles).
Proof.
  destruct (compress_array_spec storedDeflate manyFiles
              (storedDeflate_delivers manyFiles)) as (Hc & _ & _).
  assert (Hlen : Z.of_nat (length manyFiles) = 65536).
  { unfold manyFiles. rewrite repeat_length. apply Z2Nat.id. lia. }
  eexists. split; [exact Hc|].
  rewrite app_assoc, endRecord_of_archive.
  destruct (endRecordLayout_fields (Z.of_nat (length manyFiles))
              (Z.of_nat (length (concat (centralDirectory storedDeflate
                                           manyFiles))))
              (spans storedDeflate 0 manyFiles))
    as (_ & _ & _ & Hn1 & Hn2 & _).
  rewrite Hn1, Hn2, Hlen. repeat split; try reflexivity.
  change (65536 mod 2 ^ 16) with 0. lia.
Qed.

Lemma steps_adler32Map_origin (deflate : Compressor) (files : list File)
  (n : nat) (st : state) (nm : string) (v : Z) :
  adler32Map (steps deflate n files st) !! nm = Some v ->
  adler32Map st !! nm = Some v \/
  exists j g,
    files !! j = Some g /\ name g = nm /\
    looksWrapped (compressorOutput deflate (n + j) g) = true.
Proof.
  revert n st. induction files as [|g files IH]; intros n st H; [left; exact H|].
  cbn [steps] in H. destruct (IH _ _ H) as [Hst|(j & h & Hh & Hn & Hw)].
  - cbn [step adler32Map] in Hst. unfold storeAdler32 in Hst.
    destruct (looksWrapped (compressorOutput deflate n g)) eqn:Hg.
    + rewrite lookup_insert in Hst.
      destruct (decide (name g = nm)) as [E|_].
      * right. exists 0%nat, g. rewrite Nat.add_0_r.
        split; [reflexivity|]. split; [exact E | exact Hg].
      * left. exact Hst.
    + left. exact Hst.
  - right. exists (S j), h.
    replace (n + S j)%nat with (S n + j)%nat by lia.
    split; [exact Hh|]. split; [exact Hn | exact Hw].
Qed.

(** C3.  In the iteration of every entry, the reframer of lines 82-96 and
    123 yields what the specification's reframer yields on the compressor's
    output: for an output of at least 6 bytes whose first byte is 0x78, the
    output sliced from offset 2 to length-4, and the last 4 bytes read as a
    big-endian number; for any other output, the whole output, and 0.  The
    compressor is taken not to stop framing under one file name: if an
    earlier entry of the same name had a framed output, so has this one (the
    platform's compressor frames every output). *)
Theorem reframer_yields_payload_and_checksum
  (deflate : Compressor) (files : list File) (i : nat) (f : File) :
  delivers deflate files -> files !! i = Some f ->
  (forall j g, (j < i)%nat -> files !! j = Some g -> name g = name f ->
               looksWrapped (compressorOutput deflate j g) = true ->
               looksWrapped (compressorOutput deflate i f) = true) ->
  exists (st : state) (compressedBlob : Blob) (m : gmap string Z)
         (compressedData : list byte),
    processFiles deflate 0 (take i files) initial = Ok st /\
    streamToBlob (deflate i (data f)) = Ok compressedBlob /\
    let output := blob_bytes compressedBlob in
    stripWrapper (adler32Map st) (name f) output = Ok (m, compressedData) /\
    (compressedData, lookupAdler32 m (name f)) = reframe output /\
    if (6 <=? length output)%nat &&
       match output with b :: _ => byte_val b =? 0x78 | [] => false end
    then compressedData = take (length output - 4 - 2) (drop 2 output) /\
         lookupAdler32 m (name f) =
           be_combine (drop (length output - 4) output)
    else compressedData = output /\ lookupAdler32 m (name f) = 0.
Proof.
  intros Hd Hi Hframing.
  pose proof (Hd i f Hi) as Hs.
  apply firstError_delivers in Hd.
  exists (steps deflate 0 (take i files) initial).
  exists (mkBlob (compressorOutput deflate i f) "").
  eexists. eexists.
  split.
  { rewrite processFiles_spec, (firstError_take deflate files 0 i Hd).
    reflexivity. }
  split.
  { rewrite streamToBlob_spec, Hs. reflexivity. }
  cbv zeta. cbn [blob_bytes].
  split; [apply stripWrapper_spec|].
  set (w := compressorOutput deflate i f) in *.
  assert (Hzero : looksWrapped w = false ->
                  lookupAdler32
                    (adler32Map (steps deflate 0 (take i files) initial))
                    (name f) = 0).
  { intros Hw. unfold lookupAdler32.
    destruct (adler32Map (steps deflate 0 (take i files) initial) !! name f)
      as [v|] eqn:E; [|reflexivity].
    exfalso.
    destruct (steps_adler32Map_origin deflate (take i files) 0 initial
                (name f) v E) as [H0|(j & g & Hg & Hn & Hgw)].
    - cbn [initial adler32Map] in H0. rewrite lookup_empty in H0.
      discriminate.
    - apply lookup_take_Some in Hg as [Hg Hj]. cbn [Nat.add] in Hgw.
      specialize (Hframing j g Hj Hg Hn Hgw). congruence. }
  change ((6 <=? length w)%nat &&
          match w with b :: _ => byte_val b =? 0x78 | [] => false end)
    with (looksWrapped w).
  unfold reframe. destruct (looksWrapped w) eqn:Hw; cbn [fst snd].
  - rewrite lookupAdler32_insert. repeat split; reflexivity.
  - rewrite (Hzero eq_refl). repeat split; reflexivity.
Qed.

Lemma reframer_yields_payload_and_checksum_witness :
  delivers unwrappedLater [alpha; bravo] /\
  [alpha; bravo] !! 1%nat = Some bravo /\
  (forall j g, (j < 1)%nat -> [alpha; bravo] !! j = Some g ->
               name g = name bravo ->
               looksWrapped (compressorOutput unwrappedLater j g) = true ->
               looksWrapped (compressorOutput unwrappedLater 1 bravo) = true) /\
  exists (st : state) (compressedBlob : Blob) (m : gmap string Z)
         (compressedData : list byte),
    processFiles unwrappedLater 0 (take 1 [alpha; bravo]) initial = Ok st /\
    streamToBlob (unwrappedLater 1%nat (data bravo)) = Ok compressedBlob /\
    let output := blob_bytes compressedBlob in
    stripWrapper (adler32Map st) (name bravo) output = Ok (m, compressedData) /\
    (compressedData, lookupAdler32 m (name bravo)) = reframe output /\
    if (6 <=? length output)%nat &&
       match output with b :: _ => byte_val b =? 0x78 | [] => false end
    then compressedData = take (length output - 4 - 2) (drop 2 output) /\
         lookupAdler32 m (name bravo) =
           be_combine (drop (length output - 4) output)
    else compressedData = output /\ lookupAdler32 m (name bravo) = 0.
Proof.
  assert (Hd : delivers unwrappedLater [alpha; bravo]).
  { intros [|[|i]] f Hf; try discriminate; injection Hf as <-; reflexivity. }
  assert (Hframing :
            forall j g, (j < 1)%nat -> [alpha; bravo] !! j = Some g ->
                        name g = name bravo ->
                        looksWrapped (compressorOutput unwrappedLater j g) = true ->
                        looksWrapped (compressorOutput unwrappedLater 1 bravo)
                        = true).
  { intros [|j] g Hj Hg Hn _; [|lia].
    injection Hg as <-. vm_compute in Hn. discriminate. }
  split; [exact Hd|]. split; [reflexivity|]. split; [exact Hframing|].
  exact (reframer_yields_payload_and_checksum unwrappedLater [alpha; bravo]
           1 bravo Hd eq_refl Hframing).
Defined.

(** Outside that assumption: two entries share a name, and the compressor
    frames the first stream and not the second.  The second entry's output
    does not look wrapped and its payload is the whole output, but the map
    still holds the first entry's trailer under the shared name, and that is
    the checksum the second iteration reads and puts in its comment. *)
Example stale_checksum_when_framing_stops_under_one_name :
  let w := compressorOutput unwrappedLater 1 (mkFile "a.txt" (ascii_bytes "bravo")) in
  delivers unwrappedLater sameName /\
  looksWrapped w = false /\
  rawDeflate unwrappedLater 1 (mkFile "a.txt" (ascii_bytes "bravo")) = w /\
  entryAdler32 unwrappedLater sameName 1 = 0x061b0207 /\
  entryAdler32 unwrappedLater sameName 1 = entryAdler32 unwrappedLater sameName 0 /\
  entryAdler32 unwrappedLater sameName 1 <> snd (reframe w) /\
  exists ch,
    centralDirectory unwrappedLater sameName !! 1%nat = Some ch /\
    drop (46 + 5) ch = ascii_bytes "061b0207".
Proof.
  cbv zeta. split.
  { intros [|[|i]] f Hf; try discriminate; injection Hf as <-; reflexivity. }
  repeat split; try (vm_compute; reflexivity).
  - vm_compute. discriminate.
  - eexists. split; vm_compute; reflexivity.
Qed.

(** C5, as the code has it.  The local file header of every entry lies in
    the archive at the entry's offset and is 30 bytes plus the filename
    bytes, little-endian: signature 0x04034b50, version needed 20, flags 0,
    method 8, modification time and date 0, the entry's CRC-32, the
    compressed and uncompressed sizes modulo 2^32, the filename length
    modulo 2^16, extra-field length 0, then the filename bytes; the entry's
    raw deflate bytes follow immediately. *)
Theorem local_header_layout
  (deflate : Compressor) (files : list File) (i : nat) (f : File) :
  delivers deflate files -> files !! i = Some f ->
  exists archive : Blob,
    compress deflate (AnArray files) = Ok archive /\
    let h := drop (Z.to_nat (spans deflate 0 (take i files)))
                  (blob_bytes archive) in
    let filenameBytes := encodeFilename (name f) in
    let compressedData := rawDeflate deflate i f in
    field h 0 4 = 0x04034b50 /\ field h 4 2 = 20 /\ field h 6 2 = 0 /\
    field h 8 2 = 8 /\ field h 10 2 = 0 /\ field h 12 2 = 0 /\
    field h 14 4 = calculateCRC32 (data f) /\
    field h 18 4 = Z.of_nat (length compressedData) mod 2 ^ 32 /\
    field h 22 4 = Z.of_nat (length (data f)) mod 2 ^ 32 /\
    field h 26 2 = Z.of_nat (length filenameBytes) mod 2 ^ 16 /\
    field h 28 2 = 0 /\
    take (length filenameBytes) (drop 30 h) = filenameBytes /\
    take (length compressedData) (drop (30 + length filenameBytes) h) =
      compressedData.
Proof. apply local_header_in_archive. Qed.

Lemma local_header_layout_witness :
  delivers storedDeflate [alpha; bravo] /\
  [alpha; bravo] !! 1%nat = Some bravo /\
  exists archive : Blob,
    compress storedDeflate (AnArray [alpha; bravo]) = Ok archive /\
    let h := drop (Z.to_nat (spans storedDeflate 0 (take 1 [alpha; bravo])))
                  (blob_bytes archive) in
    let filenameBytes := encodeFilename (name bravo) in
    let compressedData := rawDeflate storedDeflate 1 bravo in
    field h 0 4 = 0x04034b50 /\ field h 4 2 = 20 /\ field h 6 2 = 0 /\
    field h 8 2 = 8 /\ field h 10 2 = 0 /\ field h 12 2 = 0 /\
    field h 14 4 = calculateCRC32 (data bravo) /\
    field h 18 4 = Z.of_nat (length compressedData) mod 2 ^ 32 /\
    field h 22 4 = Z.of_nat (length (data bravo)) mod 2 ^ 32 /\
    field h 26 2 = Z.of_nat (length filenameBytes) mod 2 ^ 16 /\
    field h 28 2 = 0 /\
    take (length filenameBytes) (drop 30 h) = filenameBytes /\
    take (length compressedData) (drop (30 + length filenameBytes) h) =
      compressedData.
Proof.
  assert (H : delivers storedDeflate [alpha; bravo])
    by (intros i f _; reflexivity).
  split; [exact H|]. split; [reflexivity|].
  exact (local_header_layout storedDeflate [alpha; bravo] 1 bravo H eq_refl).
Defined.

(** C5 as stated fails on a name of 65536 bytes: the archive is built, and
    the filename-length field of its local header holds 0. *)
Lemma filename_length_wraps_at_65536 :
  exists archive : Blob,
    compress storedDeflate (AnArray [longNamed]) = Ok archive /\
    Z.of_nat (length (encodeFilename (name longNamed))) = 65536 /\
    field (blob_bytes archive) 26 2 = 0 /\
    field (blob_bytes archive) 26 2 <>
      Z.of_nat (length (encodeFilename (name longNamed))).
Proof.
  destruct (local_header_in_archive storedDeflate [longNamed] 0 longNamed
              (storedDeflate_delivers _) eq_refl)
    as (archive & Hc & F).
  cbv zeta in F. rewrite take_0 in F. cbn [spans] in F.
  change (Z.to_nat 0) with 0%nat in F. rewrite drop_0 in F.
  destruct F as (_&_&_&_&_&_&_&_&_&F26&_).
  rewrite longNamed_name_length in F26.
  exists archive. split; [exact Hc|].
  rewrite longNamed_name_length, F26.
  change (65536 mod 2 ^ 16) with 0. repeat split; try reflexivity. lia.
Qed.

(** C6.  The comment of every entry's central directory header is the
    lowercase hexadecimal representation of the entry's Adler-32 value (the
    checksum its iteration reads at line 123; the stream's big-endian
    trailer when the stream is zlib-wrapped), zero-padded on the left to
    exactly 8 characters, as bytes; the comment-length field is the byte
    length of the comment. *)
Theorem central_comment_is_hex_adler32
  (deflate : Compressor) (files : list File) (i : nat) (f : File) :
  delivers deflate files -> files !! i = Some f ->
  exists ch : list byte,
    centralDirectory deflate files !! i = Some ch /\
    let adler32 := entryAdler32 deflate files i in
    let comment := drop (46 + length (encodeFilename (name f))) ch in
    0 <= adler32 < 2 ^ 32 /\
    (looksWrapped (compressorOutput deflate i f) = true ->
     adler32 = be_combine (drop (length (compressorOutput deflate i f) - 4)
                                (compressorOutput deflate i f))) /\
    comment = hex8 adler32 /\
    length comment = 8%nat /\
    field ch 32 2 = Z.of_nat (length comment).
Proof.
  intros Hd Hi.
  destruct (compress_array_spec deflate files Hd) as (_ & _ & Hlook).
  eexists. split; [apply Hlook; exact Hi|].
  cbv zeta.
  pose proof (entryAdler32_range deflate files i) as Hr.
  unfold entryCentralHeader.
  rewrite centralHeaderLayout_comment, (encodeComment_hex8 _ Hr).
  split; [exact Hr|]. split.
  { intros Hw. rewrite (entryAdler32_wrapped deflate files i f Hd Hi Hw).
    unfold reframe. rewrite Hw. reflexivity. }
  split; [reflexivity|]. split; [reflexivity|].
  match goal with
  | |- field (centralHeaderLayout ?crc ?cs ?us ?fnb ?cb ?off) _ _ = _ =>
      pose proof (centralHeaderLayout_fields crc cs us fnb cb off []) as F
  end.
  cbv zeta in F. rewrite app_nil_r in F.
  destruct F as (_&_&_&_&_&_&_&_&_&_&_&_&F&_).
  exact F.
Qed.

Lemma central_comment_is_hex_adler32_witness :
  delivers storedDeflate [alpha; bravo] /\
  [alpha; bravo] !! 0%nat = Some alpha /\
  exists ch : list byte,
    centralDirectory storedDeflate [alpha; bravo] !! 0%nat = Some ch /\
    let adler32 := entryAdler32 storedDeflate [alpha; bravo] 0 in
    let comment := drop (46 + length (encodeFilename (name alpha))) ch in
    0 <= adler32 < 2 ^ 32 /\
    (looksWrapped (compressorOutput storedDeflate 0 alpha) = true ->
     adler32 =
     be_combine (drop (length (compressorOutput storedDeflate 0 alpha) - 4)
                      (compressorOutput storedDeflate 0 alpha))) /\
    comment = hex8 adler32 /\
    length comment = 8%nat /\
    field ch 32 2 = Z.of_nat (length comment).
Proof.
  assert (H : delivers storedDeflate [alpha; bravo])
    by (intros i f _; reflexivity).
  split; [exact H|]. split; [reflexivity|].
  exact (central_comment_is_hex_adler32 storedDeflate [alpha; bravo] 0 alpha
           H eq_refl).
Defined.

(** C7.  On a list of files for which the compressor delivers, [compress]
    returns the ZIP archive: the entries' local headers and data, then one
    central directory header per entry, each with its entry's layout, then
    the end-of-central-directory record with its layout, typed
    application/zip.  On a single file whose stream drains, it returns the
    compressor's output bytes unmodified, with the empty type and no header
    around them. *)
Theorem compress_dispatches_on_input
  (deflate : Compressor) (files : list File) (file : File) :
  delivers deflate files ->
  stream_error (deflate 0%nat (data file)) = None ->
  (compress deflate (AnArray files) =
   Ok (mkBlob
         (entryBlocks deflate 0 files ++
          concat (centralDirectory deflate files) ++
          endRecordLayout (Z.of_nat (length files))
            (Z.of_nat (length (concat (centralDirectory deflate files))))
            (spans deflate 0 files))
         "application/zip") /\
   length (centralDirectory deflate files) = length files /\
   forall (i : nat) (f : File),
     files !! i = Some f ->
     centralDirectory deflate files !! i =
     Some (entryCentralHeader deflate i f (entryAdler32 deflate files i)
             (spans deflate 0 (take i files)))) /\
  compress deflate (ASingle file) =
  Ok (mkBlob (stream_bytes (deflate 0%nat (data file))) "").
Proof.
  intros Hd Hs. split.
  - apply compress_array_spec. exact Hd.
  - cbn [compress]. unfold compressSingleFile.
    rewrite streamToBlob_spec, Hs. reflexivity.
Qed.

Lemma compress_dispatches_on_input_witness :
  delivers storedDeflate [alpha; bravo] /\
  stream_error (storedDeflate 0%nat (data hello)) = None /\
  (compress storedDeflate (AnArray [alpha; bravo]) =
   Ok (mkBlob
         (entryBlocks storedDeflate 0 [alpha; bravo] ++
          concat (centralDirectory storedDeflate [alpha; bravo]) ++
          endRecordLayout 2
            (Z.of_nat (length (concat (centralDirectory storedDeflate
                                         [alpha; bravo]))))
            (spans storedDeflate 0 [alpha; bravo]))
         "application/zip") /\
   length (centralDirectory storedDeflate [alpha; bravo]) = 2%nat /\
   forall (i : nat) (f : File),
     [alpha; bravo] !! i = Some f ->
     centralDirectory storedDeflate [alpha; bravo] !! i =
     Some (entryCentralHeader storedDeflate i f
             (entryAdler32 storedDeflate [alpha; bravo] i)
             (spans storedDeflate 0 (take i [alpha; bravo])))) /\
  compress storedDeflate (ASingle hello) =
  Ok (mkBlob (stream_bytes (storedDeflate 0%nat (data hello))) "").
Proof.
  assert (H : delivers storedDeflate [alpha; bravo])
    by (intros i f _; reflexivity).
  split; [exact H|]. split; [reflexivity|].
  exact (compress_dispatches_on_input storedDeflate [alpha; bravo] hello
           H eq_refl).
Defined.

(** C8.  If the compression stream of any entry fails, the build throws
    the error of the first failing stream: nothing is returned, and nothing
    the compressor would do on any other stream changes that. *)
Theorem compression_failure_aborts_build
  (deflate : Compressor) (files : list File) (i : nat) (f : File) (e : exn) :
  files !! i = Some f ->
  stream_error (deflate i (data f)) = Some e ->
  exists (k : nat) (g : File) (e' : exn),
    (k <= i)%nat /\ files !! k = Some g /\
    stream_error (deflate k (data g)) = Some e' /\
    (forall j h, (j < k)%nat -> files !! j = Some h ->
                 stream_error (deflate j (data h)) = None) /\
    compress deflate (AnArray files) = Throw e' /\
    (forall archive, compress deflate (AnArray files) <> Ok archive) /\
    (forall deflate' : Compressor,
        (forall j h, (j <= k)%nat -> files !! j = Some h ->
                     deflate' j (data h) = deflate j (data h)) ->
        compress deflate' (AnArray files) = Throw e').
Proof.
  intros Hi He.
  destruct (firstError_fails_from deflate files 0 i f e Hi He)
    as (k & g & e' & Hk & Hg & Hek & Hbefore & Hfirst).
  cbn [Nat.add] in Hek, Hbefore.
  exists k, g, e'.
  assert (Hc : compress deflate (AnArray files) = Throw e').
  { cbn [compress]. rewrite createZipFromFiles_spec, Hfirst. reflexivity. }
  repeat split; try assumption.
  - intros archive. rewrite Hc. discriminate.
  - intros deflate' Hsame. cbn [compress].
    rewrite createZipFromFiles_spec.
    rewrite (firstError_first deflate' files 0 k g e'); [reflexivity| |exact Hg|].
    + intros j h Hj Hh. cbn [Nat.add].
      rewrite (Hsame j h) by (lia || exact Hh). apply (Hbefore j h Hj Hh).
    + cbn [Nat.add]. rewrite (Hsame k g) by (lia || exact Hg). exact Hek.
Qed.

Lemma compression_failure_aborts_build_witness :
  [alpha; bravo; hello] !! 1%nat = Some bravo /\
  stream_error (failsSecond 1%nat (data bravo)) =
    Some (StreamFailure "aborted") /\
  exists (k : nat) (g : File) (e' : exn),
    (k <= 1)%nat /\ [alpha; bravo; hello] !! k = Some g /\
    stream_error (failsSecond k (data g)) = Some e' /\
    (forall j h, (j < k)%nat -> [alpha; bravo; hello] !! j = Some h ->
                 stream_error (failsSecond j (data h)) = None) /\
    compress failsSecond (AnArray [alpha; bravo; hello]) = Throw e' /\
    (forall archive,
        compress failsSecond (AnArray [alpha; bravo; hello]) <> Ok archive) /\
    (forall deflate' : Compressor,
        (forall j h, (j <= k)%nat -> [alpha; bravo; hello] !! j = Some h ->
                     deflate' j (data h) = failsSecond j (data h)) ->
        compress deflate' (AnArray [alpha; bravo; hello]) = Throw e').
Proof.
  split; [reflexivity|]. split; [reflexivity|].
  exact (compression_failure_aborts_build failsSecond [alpha; bravo; hello]
           1 bravo (StreamFailure "aborted") eq_refl eq_refl).
Defined.

(** C9.  An entry with no data still gets its local and central header
    pair, with CRC-32 0 and uncompressed size 0; when the compressor's output
    for it is a zlib stream (first byte 0x78, a payload, a 4-byte trailer)
    whose deflate payload is not empty (and shorter than 2^32 bytes), the
    compressed size in both headers is the payload's length, which is not
    zero. *)
Theorem empty_entry_has_headers
  (deflate : Compressor) (files : list File) (i : nat) (f : File)
  (flg : byte) (payload trailer : list byte) :
  delivers deflate files -> files !! i = Some f ->
  data f = [] ->
  compressorOutput deflate i f = x78 :: flg :: payload ++ trailer ->
  length trailer = 4%nat ->
  0 < Z.of_nat (length payload) < 2 ^ 32 ->
  exists (archive : Blob) (ch : list byte),
    compress deflate (AnArray files) = Ok archive /\
    centralDirectory deflate files !! i = Some ch /\
    let h := drop (Z.to_nat (spans deflate 0 (take i files)))
                  (blob_bytes archive) in
    field h 0 4 = 0x04034b50 /\ field ch 0 4 = 0x02014b50 /\
    field h 14 4 = 0 /\ field ch 16 4 = 0 /\
    field h 22 4 = 0 /\ field ch 24 4 = 0 /\
    field h 18 4 = Z.of_nat (length payload) /\
    field ch 20 4 = Z.of_nat (length payload) /\
    field h 18 4 <> 0 /\ field ch 20 4 <> 0 /\
    take (length payload) (drop (30 + length (encodeFilename (name f))) h) =
      payload.
Proof.
  intros Hd Hi Hdata Hout Htrailer Hpayload.
  destruct (local_header_in_archive deflate files i f Hd Hi)
    as (archive & Hc & F).
  destruct (compress_array_spec deflate files Hd) as (_ & _ & Hlook).
  exists archive. eexists. split; [exact Hc|].
  split; [apply Hlook; exact Hi|].
  assert (Hraw : rawDeflate deflate i f = payload).
  { unfold rawDeflate. rewrite Hout.
    destruct (reframe_framed flg payload trailer Htrailer) as [_ ->].
    reflexivity. }
  cbv zeta in F |- *. rewrite Hraw, Hdata in F.
  destruct F as (F0&_&_&_&_&_&F14&F18&F22&_&_&_&Fdata).
  unfold entryCentralHeader. rewrite Hraw, Hdata.
  match goal with
  | |- context [centralHeaderLayout ?crc ?cs ?us ?fnb ?cb ?off] =>
      pose proof (centralHeaderLayout_fields crc cs us fnb cb off []) as G
  end.
  cbv zeta in G. rewrite app_nil_r in G.
  destruct G as (G0&_&_&_&_&_&_&G16&G20&G24&_).
  rewrite Z.mod_small in F18, G20 by lia.
  rewrite F18, G20.
  repeat split; try assumption; try lia.
Qed.

Lemma empty_entry_has_headers_witness :
  delivers storedDeflate [alpha; blank] /\
  [alpha; blank] !! 1%nat = Some blank /\
  data blank = [] /\
  compressorOutput storedDeflate 1 blank =
    x78 :: x01 :: [x01; x00; x00; xff; xff] ++ [x00; x00; x00; x01] /\
  0 < Z.of_nat (length [x01; x00; x00; xff; xff]) < 2 ^ 32 /\
  exists (archive : Blob) (ch : list byte),
    compress storedDeflate (AnArray [alpha; blank]) = Ok archive /\
    centralDirectory storedDeflate [alpha; blank] !! 1%nat = Some ch /\
    let h := drop (Z.to_nat (spans storedDeflate 0 (take 1 [alpha; blank])))
                  (blob_bytes archive) in
    field h 0 4 = 0x04034b50 /\ field ch 0 4 = 0x02014b50 /\
    field h 14 4 = 0 /\ field ch 16 4 = 0 /\
    field h 22 4 = 0 /\ field ch 24 4 = 0 /\
    field h 18 4 = 5 /\ field ch 20 4 = 5 /\
    field h 18 4 <> 0 /\ field ch 20 4 <> 0 /\
    take 5 (drop (30 + length (encodeFilename (name blank))) h) =
      [x01; x00; x00; xff; xff].
Proof.
  assert (H : delivers storedDeflate [alpha; blank])
    by (intros i f _; reflexivity).
  split; [exact H|]. split; [reflexivity|]. split; [reflexivity|].
  split; [vm_compute; reflexivity|]. split; [cbn; lia|].
  exact (empty_entry_has_headers storedDeflate [alpha; blank] 1 blank
           x01 [x01; x00; x00; xff; xff] [x00; x00; x00; x01]
           H eq_refl eq_refl eq_refl eq_refl
           (conj (eq_refl : (0 ?= 5) = Lt) (eq_refl : (5 ?= 2 ^ 32) = Lt))).
Defined.

(** C10.  On the empty list [compress] returns the 22 bytes of the
    end-of-central-directory record alone: signature 0x06054b50, both entry
    counts 0, central-directory size 0 and start 0, comment length 0, typed
    application/zip. *)
Theorem empty_list_gives_end_record_only (deflate : Compressor) :
  exists archive : Blob,
    compress deflate (AnArray []) = Ok archive /\
    blob_type archive = "application/zip"%string /\
    length (blob_bytes archive) = 22%nat /\
    blob_bytes archive = endRecord archive /\
    blob_bytes archive =
      [x50; x4b; x05; x06; x00; x00; x00; x00; x00; x00; x00;
       x00; x00; x00; x00; x00; x00; x00; x00; x00; x00; x00] /\
    field (blob_bytes archive) 0 4 = 0x06054b50 /\
    field (blob_bytes archive) 4 2 = 0 /\
    field (blob_bytes archive) 6 2 = 0 /\
    field (blob_bytes archive) 8 2 = 0 /\
    field (blob_bytes archive) 10 2 = 0 /\
    field (blob_bytes archive) 12 4 = 0 /\
    field (blob_bytes archive) 16 4 = 0 /\
    field (blob_bytes archive) 20 2 = 0.
Proof.
  eexists. split; [vm_compute; reflexivity|].
  repeat split; vm_compute; reflexivity.
Qed.

End Claims.

(** ** Further properties of the class and of the test harness *)

Section Stores.

Lemma store_in_range (buf : list byte) (off : nat) (src : list byte) :
  (off + length src <= length buf)%nat ->
  exists buf',
    store buf off src = Ok buf' /\
    length buf' = length buf /\
    take (length src) (drop off buf') = src /\
    take off buf' = take off buf /\
    drop (off + length src) buf' = drop (off + length src) buf.
Proof.
  intros Hle. unfold store.
  replace (off + length src <=? length buf)%nat with true
    by (symmetry; apply Nat.leb_le; exact Hle).
  eexists. split; [reflexivity|].
  assert (Hoff : length (take off buf) = off)
    by (rewrite length_take; lia).
  repeat split.
  - rewrite !length_app, Hoff, length_drop. lia.
  - rewrite <- Hoff at 1. rewrite drop_app_length. apply take_app_length.
  - rewrite <- Hoff at 1. apply take_app_length.
  - rewrite app_assoc.
    replace (off + length src)%nat with (length (take off buf ++ src))
      at 1 by (rewrite length_app, Hoff; reflexivity).
    apply drop_app_length.
Qed.

Lemma store_out_of_range (buf : list byte) (off : nat) (src : list byte) :
  (length buf < off + length src)%nat -> store buf off src = Throw RangeError.
Proof.
  intros Hlt. unfold store.
  replace (off + length src <=? length buf)%nat with false
    by (symmetry; apply Nat.leb_gt; exact Hlt).
  reflexivity.
Qed.

(** X1.  [#writeUint32] inside the view stores the value modulo 2^32
    little-endian at the offset, keeps the length and every other byte; with
    fewer than four bytes left at the offset it raises [RangeError]. *)
Theorem writeUint32_stores_or_raises (view : list byte) (offset : nat) (value : Z) :
  if (offset + 4 <=? length view)%nat
  then exists view',
      writeUint32 view offset value = Ok view' /\
      length view' = length view /\
      field view' offset 4 = value mod 2 ^ 32 /\
      take offset view' = take offset view /\
      drop (offset + 4) view' = drop (offset + 4) view
  else writeUint32 view offset value = Throw RangeError.
Proof.
  unfold writeUint32, DataView_setUint32, endian.
  destruct (Nat.leb_spec (offset + 4) (length view)) as [Hle|Hlt].
  - destruct (store_in_range view offset (le_split 4 (ToUint32 value)))
      as (view' & Hs & Hlen & Hread & Hbefore & Hafter).
    { rewrite length_le_split. exact Hle. }
    rewrite length_le_split in Hread, Hafter.
    exists view'. repeat split; try assumption.
    unfold field. rewrite Hread. apply le_combine_u32.
  - apply store_out_of_range. rewrite length_le_split. exact Hlt.
Qed.

(** X2.  [#writeUint16] inside the view stores the value modulo 2^16
    little-endian at the offset, keeps the length and every other byte; with
    fewer than two bytes left at the offset it raises [RangeError]. *)
Theorem writeUint16_stores_or_raises (view : list byte) (offset : nat) (value : Z) :
  if (offset + 2 <=? length view)%nat
  then exists view',
      writeUint16 view offset value = Ok view' /\
      length view' = length view /\
      field view' offset 2 = value mod 2 ^ 16 /\
      take offset view' = take offset view /\
      drop (offset + 2) view' = drop (offset + 2) view
  else writeUint16 view offset value = Throw RangeError.
Proof.
  unfold writeUint16, DataView_setUint16, endian.
  destruct (Nat.leb_spec (offset + 2) (length view)) as [Hle|Hlt].
  - destruct (store_in_range view offset (le_split 2 (ToUint16 value)))
      as (view' & Hs & Hlen & Hread & Hbefore & Hafter).
    { rewrite length_le_split. exact Hle. }
    rewrite length_le_split in Hread, Hafter.
    exists view'. repeat split; try assumption.
    unfold field. rewrite Hread. apply le_combine_u16.
  - apply store_out_of_range. rewrite length_le_split. exact Hlt.
Qed.

End Stores.

Section Draining.

(** X3.  [#streamToBlob] returns the bytes of all the chunks the stream
    delivers, in order, skipping reads without a value, as a blob with the
    empty type; if a read rejects, it rejects with that reason whatever was
    read before. *)
Theorem streamToBlob_drains_or_rejects (stream : ReadableStream) :
  streamToBlob stream =
  match stream_error stream with
  | Some e => Throw e
  | None => Ok (mkBlob (stream_bytes stream) "")
  end.
Proof. apply streamToBlob_spec. Qed.

Lemma readChunks_spec (stream : ReadableStream) (chunks : list (list byte)) :
  match Harness.readChunks stream chunks with
  | Ok chunks' =>
      stream_error stream = None /\
      concat chunks' = concat chunks ++ stream_bytes stream
  | Throw e => stream_error stream = Some e
  end.
Proof.
  revert chunks. induction stream as [|value rest IH|e]; intros chunks.
  - cbn. rewrite app_nil_r. split; reflexivity.
  - cbn [Harness.readChunks stream_error stream_bytes].
    specialize (IH (match value with Some v => chunks ++ [v] | None => chunks end)).
    destruct (Harness.readChunks rest _) as [chunks'|e]; [|exact IH].
    destruct IH as [He Hc]. split; [exact He|]. rewrite Hc.
    destruct value as [v|]; [|reflexivity].
    rewrite concat_app. cbn [concat]. rewrite app_nil_r, app_assoc.
    reflexivity.
  - reflexivity.
Qed.

Lemma fold_left_chunk_lengths (chunks : list (list byte)) (a : nat) :
  fold_left (fun sum chunk => (sum + length chunk)%nat) chunks a =
  (a + length (concat chunks))%nat.
Proof.
  revert a. induction chunks as [|c chunks IH]; intros a.
  - cbn. lia.
  - cbn [fold_left concat]. rewrite IH, length_app. lia.
Qed.

(** Every [buffer.set] of the copy loop is in range: the buffer holds what
    was copied and zeros for exactly what is left. *)
Lemma copyChunks_spec (chunks : list (list byte)) (copied : list byte) :
  Harness.copyChunks chunks
    (copied ++ List.repeat x00 (length (concat chunks))) (length copied) =
  Ok (copied ++ concat chunks).
Proof.
  revert copied. induction chunks as [|c chunks IH]; intros copied.
  - cbn. reflexivity.
  - cbn [Harness.copyChunks concat]. rewrite length_app, repeat_app.
    rewrite (store_at copied (List.repeat x00 (length c)) _ c)
      by apply repeat_length.
    cbn [bind]. specialize (IH (copied ++ c)).
    rewrite length_app, <- app_assoc in IH. rewrite IH, <- app_assoc.
    reflexivity.
Qed.

Lemma gather_spec (chunks : list (list byte)) :
  Harness.gather chunks = Ok (concat chunks).
Proof.
  unfold Harness.gather, ArrayBuffer_new.
  rewrite fold_left_chunk_lengths. cbn [Nat.add].
  apply (copyChunks_spec chunks []).
Qed.

(** X4.  The test's reassembly of a stream (read every chunk, size a
    buffer by the sum of their lengths, copy each chunk at the running
    offset) never writes out of range and yields the same bytes as the blob
    [#streamToBlob] builds from that stream; a rejected read rejects both. *)
Theorem harness_collect_agrees_with_streamToBlob (stream : ReadableStream) :
  Harness.collect stream =
  match streamToBlob stream with
  | Ok blob => Ok (blob_bytes blob)
  | Throw e => Throw e
  end.
Proof.
  rewrite streamToBlob_spec. unfold Harness.collect.
  pose proof (readChunks_spec stream []) as H.
  destruct (Harness.readChunks stream []) as [chunks|e].
  - destruct H as [-> Hc]. cbn [bind blob_bytes].
    rewrite gather_spec, Hc. reflexivity.
  - rewrite H. reflexivity.
Qed.

End Draining.

Section Failures.

(** X5.  The three header builders never raise: every [setUint16],
    [setUint32] and [set] of lines 105-116, 131-150 and 164-171 falls inside
    the buffer allocated for it, whatever the checksum, the sizes, the
    offset, the file name and the comment are; the buffers they return are
    30 + name, 46 + name + comment and 22 bytes long and end with the name
    (local), the name and the comment (central). *)
Theorem header_builders_never_raise
  (crc32 compressedSize uncompressedSize localOffset : Z)
  (filenameBytes commentBytes : list byte)
  (filesLength centralDirSize centralDirStart : Z) :
  (exists h,
      buildLocalHeader crc32 compressedSize uncompressedSize filenameBytes
        = Ok h /\
      length h = (30 + length filenameBytes)%nat /\
      drop 30 h = filenameBytes) /\
  (exists h,
      buildCentralHeader crc32 compressedSize uncompressedSize filenameBytes
        commentBytes localOffset = Ok h /\
      length h = (46 + length filenameBytes + length commentBytes)%nat /\
      drop 46 h = filenameBytes ++ commentBytes) /\
  (exists h,
      buildEndOfCentralDir filesLength centralDirSize centralDirStart = Ok h /\
      length h = 22%nat).
Proof.
  split; [|split].
  - eexists. split; [apply buildLocalHeader_layout|].
    split; [apply localHeaderLayout_length | reflexivity].
  - eexists. split; [apply buildCentralHeader_layout|].
    split; [apply centralHeaderLayout_length | reflexivity].
  - eexists. split; [apply buildEndOfCentralDir_layout|].
    apply endRecordLayout_length.
Qed.

End Failures.

Section Unwrapping.

(** X6.  Stripping a zlib-framed output (first byte 0x78, a flag byte, a
    payload, a four-byte trailer) never raises: it returns exactly the
    payload and records the trailer, read big-endian, under the file's name,
    leaving the entries of the other names as they were. *)
Theorem stripWrapper_unwraps_framed
  (m : gmap string Z) (fileName : string) (flg : byte)
  (payload trailer : list byte) :
  length trailer = 4%nat ->
  exists m',
    stripWrapper m fileName (x78 :: flg :: payload ++ trailer) =
      Ok (m', payload) /\
    m' !! fileName = Some (be_combine trailer) /\
    forall other, other <> fileName -> m' !! other = m !! other.
Proof.
  intros Ht. rewrite stripWrapper_spec.
  destruct (reframe_framed flg payload trailer Ht) as [-> ->].
  eexists. split; [reflexivity|]. cbn [snd]. split.
  - apply lookup_insert_eq.
  - intros other Hne. apply lookup_insert_ne. congruence.
Qed.

Lemma stripWrapper_unwraps_framed_witness :
  length [x06; x1b; x02; x07] = 4%nat /\
  exists m',
    stripWrapper (<["b.txt"%string := 7]> empty) "a.txt"
      (x78 :: x01 :: [x01; x00; x00; xff; xff] ++ [x06; x1b; x02; x07]) =
      Ok (m', [x01; x00; x00; xff; xff]) /\
    m' !! "a.txt"%string = Some (be_combine [x06; x1b; x02; x07]) /\
    forall other, other <> "a.txt"%string ->
                  m' !! other = (<["b.txt"%string := 7]> empty : gmap string Z) !! other.
Proof.
  split; [reflexivity|].
  exact (stripWrapper_unwraps_framed (<["b.txt"%string := 7]> empty) "a.txt"
           x01 [x01; x00; x00; xff; xff] [x06; x1b; x02; x07] eq_refl).
Defined.

(** X7.  An output shorter than six bytes, or whose first byte is not 0x78,
    is returned whole and the map is left untouched. *)
Theorem stripWrapper_keeps_unframed
  (m : gmap string Z) (fileName : string) (output : list byte) :
  (length output < 6)%nat \/
  (forall b rest, output = b :: rest -> byte_val b <> 0x78) ->
  stripWrapper m fileName output = Ok (m, output).
Proof.
  intros H. rewrite stripWrapper_spec.
  assert (Hw : looksWrapped output = false).
  { unfold looksWrapped. destruct H as [Hlen|Hfirst].
    - replace (6 <=? length output)%nat with false
        by (symmetry; apply Nat.leb_gt; exact Hlen).
      reflexivity.
    - destruct output as [|b rest]; [apply andb_false_r|].
      specialize (Hfirst b rest eq_refl).
      destruct (Z.eqb_spec (byte_val b) 0x78) as [E|_]; [contradiction|].
      apply andb_false_r. }
  unfold reframe. rewrite Hw. reflexivity.
Qed.

Lemma stripWrapper_keeps_unframed_witness :
  ((length [x78; x01; x03; x00] < 6)%nat \/
   (forall b rest, [x78; x01; x03; x00] = b :: rest -> byte_val b <> 0x78)) /\
  stripWrapper empty "a.txt" [x78; x01; x03; x00] =
    Ok (empty, [x78; x01; x03; x00]).
Proof.
  assert (H : (length [x78; x01; x03; x00] < 6)%nat \/
              (forall b rest, [x78; x01; x03; x00] = b :: rest ->
                              byte_val b <> 0x78))
    by (left; cbn; lia).
  split; [exact H|].
  exact (stripWrapper_keeps_unframed empty "a.txt" [x78; x01; x03; x00] H).
Defined.

Lemma steps_adler32Map_keys (deflate : Compressor) (files : list File)
  (n : nat) (st : state) (nm : string) (v : Z) :
  adler32Map (steps deflate n files st) !! nm = Some v ->
  adler32Map st !! nm = Some v \/
  exists j f, files !! j = Some f /\ name f = nm.
Proof.
  revert n st. induction files as [|g files IH]; intros n st H; [left; exact H|].
  cbn [steps] in H. destruct (IH _ _ H) as [Hst|(j & f & Hf & Hn)].
  - cbn [step adler32Map] in Hst. unfold storeAdler32 in Hst.
    destruct (looksWrapped (compressorOutput deflate n g)).
    + rewrite lookup_insert in Hst.
      destruct (decide (name g = nm)) as [E|_].
      * right. exists 0%nat, g. split; [reflexivity | exact E].
      * left. exact Hst.
    + left. exact Hst.
  - right. exists (S j), f. split; [exact Hf | exact Hn].
Qed.

(** X8.  When the file names of a list are pairwise distinct, the checksum
    each entry's comment carries is the one of its own stream: the
    big-endian trailer if the stream looks zlib-wrapped, and 0 if not. *)
Theorem distinct_names_keep_checksums_apart
  (deflate : Compressor) (files : list File) (i : nat) (f : File) :
  delivers deflate files ->
  NoDup (List.map name files) ->
  files !! i = Some f ->
  entryAdler32 deflate files i = snd (reframe (compressorOutput deflate i f)).
Proof.
  intros Hd Hnd Hi.
  destruct (looksWrapped (compressorOutput deflate i f)) eqn:Hw.
  - apply (entryAdler32_wrapped deflate files i f Hd Hi Hw).
  - apply firstError_delivers in Hd.
    rewrite (entryAdler32_delivers deflate files i f Hd Hi).
    rewrite (steps_take_S deflate files i f Hi).
    cbn [step adler32Map]. unfold storeAdler32, reframe. rewrite Hw.
    cbn [snd]. unfold lookupAdler32.
    destruct (adler32Map (steps deflate 0 (take i files) initial) !! name f)
      as [v|] eqn:E; [|reflexivity].
    exfalso.
    destruct (steps_adler32Map_keys deflate (take i files) 0 initial
                (name f) v E) as [H0|(j & g & Hg & Hn)].
    + cbn [initial adler32Map] in H0. rewrite lookup_empty in H0.
      discriminate.
    + apply lookup_take_Some in Hg as [Hg Hj].
      assert (Hji : j = i).
      { apply (NoDup_lookup (List.map name files) j i (name f) Hnd).
        - change (List.map name files) with (name <$> files).
          rewrite list_lookup_fmap, Hg. cbn. rewrite Hn. reflexivity.
        - change (List.map name files) with (name <$> files).
          rewrite list_lookup_fmap, Hi. reflexivity. }
      lia.
Qed.

Lemma distinct_names_keep_checksums_apart_witness :
  delivers Sample.unwrappedLater [Sample.alpha; Sample.bravo] /\
  NoDup (List.map name [Sample.alpha; Sample.bravo]) /\
  [Sample.alpha; Sample.bravo] !! 1%nat = Some Sample.bravo /\
  entryAdler32 Sample.unwrappedLater [Sample.alpha; Sample.bravo] 1 =
  snd (reframe (compressorOutput Sample.unwrappedLater 1 Sample.bravo)).
Proof.
  assert (Hd : delivers Sample.unwrappedLater [Sample.alpha; Sample.bravo]).
  { intros [|[|i]] f Hf; try discriminate; injection Hf as <-; reflexivity. }
  assert (Hn : NoDup (List.map name [Sample.alpha; Sample.bravo])).
  { cbn [List.map name Sample.alpha Sample.bravo].
    apply NoDup_cons. split; [|apply NoDup_singleton].
    intros H. apply list_elem_of_singleton in H. discriminate. }
  split; [exact Hd|]. split; [exact Hn|]. split; [reflexivity|].
  exact (distinct_names_keep_checksums_apart Sample.unwrappedLater
           [Sample.alpha; Sample.bravo] 1 Sample.bravo Hd Hn eq_refl).
Defined.

End Unwrapping.

Section Comments.

Lemma hexDigitValue_hexChar (d : Z) :
  0 <= d < 16 -> Reader.hexDigitValue (hexChar d) = Some d.
Proof.
  intros Hd.
  assert (H : d = 0 \/ d = 1 \/ d = 2 \/ d = 3 \/ d = 4 \/ d = 5 \/ d = 6 \/
              d = 7 \/ d = 8 \/ d = 9 \/ d = 10 \/ d = 11 \/ d = 12 \/
              d = 13 \/ d = 14 \/ d = 15) by lia.
  repeat (destruct H as [->|H]; [vm_compute; reflexivity|]).
  subst d. vm_compute. reflexivity.
Qed.

Lemma parseHex_nibbles (k : nat) (n v : Z) :
  fold_left
    (fun acc b =>
       match acc, Reader.hexDigitValue b with
       | Some v, Some d => Some (v * 16 + d)
       | _, _ => None
       end)
    (List.map hexChar (nibbles k n)) (Some v) =
  Some (v * 16 ^ Z.of_nat k + n mod 16 ^ Z.of_nat k).
Proof.
  revert n v. induction k as [|k IH]; intros n v.
  - cbn [nibbles List.map fold_left Z.of_nat]. rewrite Z.pow_0_r, Z.mod_1_r.
    f_equal. lia.
  - cbn [nibbles]. rewrite map_app, fold_left_app, IH.
    cbn [List.map fold_left].
    rewrite hexDigitValue_hexChar by (apply Z.mod_pos_bound; lia).
    f_equal. rewrite Nat2Z.inj_succ, Z.pow_succ_r by lia.
    rewrite (Z.rem_mul_r n 16 (16 ^ Z.of_nat k)) by lia. lia.
Qed.

Lemma comment_parses_back_to_checksum_aux (adler32 : Z) :
  0 <= adler32 < 2 ^ 32 ->
  Reader.parseHex (encodeComment adler32) = Some adler32.
Proof.
  intros Ha. rewrite (encodeComment_hex8 adler32 Ha).
  rewrite hex8_nibbles. unfold Reader.parseHex.
  rewrite parseHex_nibbles. f_equal.
  change (16 ^ Z.of_nat 8) with (2 ^ 32).
  rewrite Z.mod_small by exact Ha. lia.
Qed.

(** X9.  The comment of a checksum below 2^32 is eight bytes, and reading
    them back as hexadecimal digits gives the checksum: distinct checksums
    have distinct comments. *)
Theorem comment_parses_back_to_checksum (adler32 : Z) :
  0 <= adler32 < 2 ^ 32 ->
  length (encodeComment adler32) = 8%nat /\
  Reader.parseHex (encodeComment adler32) = Some adler32.
Proof.
  intros Ha. split.
  - rewrite (encodeComment_hex8 adler32 Ha). reflexivity.
  - apply comment_parses_back_to_checksum_aux. exact Ha.
Qed.

Lemma comment_parses_back_to_checksum_witness :
  0 <= 0x061b0207 < 2 ^ 32 /\
  length (encodeComment 0x061b0207) = 8%nat /\
  Reader.parseHex (encodeComment 0x061b0207) = Some 0x061b0207.
Proof.
  assert (H : 0 <= 0x061b0207 < 2 ^ 32) by lia.
  split; [exact H|].
  exact (comment_parses_back_to_checksum 0x061b0207 H).
Defined.

Lemma le_split_combine (bs : list byte) :
  le_split (length bs) (le_combine bs) = bs.
Proof.
  induction bs as [|b bs IH]; [reflexivity|].
  cbn [length le_split le_combine].
  pose proof (byte_val_range b) as Hb.
  replace (byte_of (byte_val b + 256 * le_combine bs)) with b.
  - f_equal.
    replace ((byte_val b + 256 * le_combine bs) / 256) with (le_combine bs).
    + exact IH.
    + rewrite Z.mul_comm, Z.div_add by lia.
      rewrite Z.div_small by lia. reflexivity.
  - rewrite <- (byte_of_val b) at 1. unfold byte_of.
    rewrite Z.mul_comm, Z_mod_plus_full. reflexivity.
Qed.

Lemma be_split4_combine (trailer : list byte) :
  length trailer = 4%nat -> Reader.be_split4 (be_combine trailer) = trailer.
Proof.
  intros Ht. unfold Reader.be_split4.
  rewrite <- le_combine_rev.
  replace 4%nat with (length (rev trailer)) by (rewrite length_rev; exact Ht).
  rewrite le_split_combine. apply rev_involutive.
Qed.

(** X10.  What an archive keeps of a zlib-framed stream is enough to frame
    it again: the two header bytes, the entry's raw deflate data and the
    checksum parsed from the entry's comment, written big-endian, are the
    compressor's output. *)
Theorem zlib_stream_rebuilt_from_entry
  (deflate : Compressor) (files : list File) (i : nat) (f : File)
  (flg : byte) (payload trailer : list byte) :
  delivers deflate files -> files !! i = Some f ->
  compressorOutput deflate i f = x78 :: flg :: payload ++ trailer ->
  length trailer = 4%nat ->
  exists (ch : list byte) (adler32 : Z),
    centralDirectory deflate files !! i = Some ch /\
    Reader.parseHex (drop (46 + length (encodeFilename (name f))) ch) =
      Some adler32 /\
    x78 :: flg :: rawDeflate deflate i f ++ Reader.be_split4 adler32 =
      compressorOutput deflate i f.
Proof.
  intros Hd Hi Hout Ht.
  destruct (compress_array_spec deflate files Hd) as (_ & _ & Hlook).
  destruct (reframe_framed flg payload trailer Ht) as [Hw Hre].
  rewrite <- Hout in Hw, Hre.
  pose proof (entryAdler32_wrapped deflate files i f Hd Hi Hw) as Ha.
  rewrite Hre in Ha. cbn [snd] in Ha.
  pose proof (entryAdler32_range deflate files i) as Hr.
  eexists. exists (entryAdler32 deflate files i).
  split; [apply Hlook; exact Hi|].
  unfold entryCentralHeader. rewrite centralHeaderLayout_comment.
  split; [apply comment_parses_back_to_checksum_aux; exact Hr|].
  unfold rawDeflate. rewrite Hre. cbn [fst].
  rewrite Ha, (be_split4_combine trailer Ht). symmetry. exact Hout.
Qed.

End Comments.

Section Directory.

Lemma zlib_stream_rebuilt_from_entry_witness :
  delivers Sample.storedDeflate [Sample.alpha; Sample.bravo] /\
  [Sample.alpha; Sample.bravo] !! 0%nat = Some Sample.alpha /\
  compressorOutput Sample.storedDeflate 0 Sample.alpha =
    x78 :: x01 :: Sample.storedBlock (ascii_bytes "alpha")
           ++ [x06; x1b; x02; x07] /\
  exists (ch : list byte) (adler32 : Z),
    centralDirectory Sample.storedDeflate [Sample.alpha; Sample.bravo] !! 0%nat
      = Some ch /\
    Reader.parseHex (drop (46 + length (encodeFilename (name Sample.alpha))) ch)
      = Some adler32 /\
    x78 :: x01 :: rawDeflate Sample.storedDeflate 0 Sample.alpha
           ++ Reader.be_split4 adler32 =
      compressorOutput Sample.storedDeflate 0 Sample.alpha.
Proof.
  assert (H : delivers Sample.storedDeflate [Sample.alpha; Sample.bravo])
    by (intros i f _; reflexivity).
  assert (Hout : compressorOutput Sample.storedDeflate 0 Sample.alpha =
                 x78 :: x01 :: Sample.storedBlock (ascii_bytes "alpha")
                        ++ [x06; x1b; x02; x07])
    by (vm_compute; reflexivity).
  split; [exact H|]. split; [reflexivity|]. split; [exact Hout|].
  exact (zlib_stream_rebuilt_from_entry Sample.storedDeflate
           [Sample.alpha; Sample.bravo] 0 Sample.alpha x01
           (Sample.storedBlock (ascii_bytes "alpha")) [x06; x1b; x02; x07]
           H eq_refl Hout eq_refl).
Defined.

(** X11.  The central directory header of every entry is 46 bytes plus the
    filename bytes plus the 8 comment bytes, little-endian: signature
    0x02014b50, version made by 20, version needed 20, flags 0, method 8,
    time and date 0, the CRC-32 of the entry's data, the compressed and
    uncompressed sizes modulo 2^32, the filename length modulo 2^16, extra
    length 0, comment length 8, disk number 0, internal and external
    attributes 0, then the filename bytes. *)
Theorem central_header_layout
  (deflate : Compressor) (files : list File) (i : nat) (f : File) :
  delivers deflate files -> files !! i = Some f ->
  exists ch : list byte,
    centralDirectory deflate files !! i = Some ch /\
    let filenameBytes := encodeFilename (name f) in
    length ch = (46 + length filenameBytes + 8)%nat /\
    field ch 0 4 = 0x02014b50 /\ field ch 4 2 = 20 /\ field ch 6 2 = 20 /\
    field ch 8 2 = 0 /\ field ch 10 2 = 8 /\ field ch 12 2 = 0 /\
    field ch 14 2 = 0 /\
    field ch 16 4 = calculateCRC32 (data f) /\
    field ch 20 4 = Z.of_nat (length (rawDeflate deflate i f)) mod 2 ^ 32 /\
    field ch 24 4 = Z.of_nat (length (data f)) mod 2 ^ 32 /\
    field ch 28 2 = Z.of_nat (length filenameBytes) mod 2 ^ 16 /\
    field ch 30 2 = 0 /\ field ch 32 2 = 8 /\
    field ch 34 2 = 0 /\ field ch 36 2 = 0 /\ field ch 38 4 = 0 /\
    take (length filenameBytes) (drop 46 ch) = filenameBytes.
Proof.
  intros Hd Hi.
  destruct (compress_array_spec deflate files Hd) as (_ & _ & Hlook).
  eexists. split; [apply Hlook; exact Hi|].
  cbv zeta. unfold entryCentralHeader.
  pose proof (entryAdler32_range deflate files i) as Hr.
  match goal with
  | |- context [centralHeaderLayout ?crc ?cs ?us ?fnb ?cb ?off] =>
      pose proof (centralHeaderLayout_fields crc cs us fnb cb off []) as F;
      pose proof (centralHeaderLayout_length crc cs us fnb cb off) as L
  end.
  cbv zeta in F. rewrite app_nil_r in F.
  rewrite (encodeComment_hex8 _ Hr) in F, L |- *.
  destruct F as (F0&F4&F6&F8&F10&F12&F14&F16&F20&F24&F28&F30&F32&F34&F36&F38
                 &_&Fname&_).
  rewrite Z.mod_small in F16 by apply calculateCRC32_range.
  split; [exact L|].
  repeat split; assumption.
Qed.

Lemma central_header_layout_witness :
  delivers Sample.storedDeflate [Sample.alpha; Sample.bravo] /\
  [Sample.alpha; Sample.bravo] !! 1%nat = Some Sample.bravo /\
  exists ch : list byte,
    centralDirectory Sample.storedDeflate [Sample.alpha; Sample.bravo] !! 1%nat
      = Some ch /\
    let filenameBytes := encodeFilename (name Sample.bravo) in
    length ch = (46 + length filenameBytes + 8)%nat /\
    field ch 0 4 = 0x02014b50 /\ field ch 4 2 = 20 /\ field ch 6 2 = 20 /\
    field ch 8 2 = 0 /\ field ch 10 2 = 8 /\ field ch 12 2 = 0 /\
    field ch 14 2 = 0 /\
    field ch 16 4 = calculateCRC32 (data Sample.bravo) /\
    field ch 20 4 =
      Z.of_nat (length (rawDeflate Sample.storedDeflate 1 Sample.bravo))
      mod 2 ^ 32 /\
    field ch 24 4 = Z.of_nat (length (data Sample.bravo)) mod 2 ^ 32 /\
    field ch 28 2 = Z.of_nat (length filenameBytes) mod 2 ^ 16 /\
    field ch 30 2 = 0 /\ field ch 32 2 = 8 /\
    field ch 34 2 = 0 /\ field ch 36 2 = 0 /\ field ch 38 4 = 0 /\
    take (length filenameBytes) (drop 46 ch) = filenameBytes.
Proof.
  assert (H : delivers Sample.storedDeflate [Sample.alpha; Sample.bravo])
    by (intros i f _; reflexivity).
  split; [exact H|]. split; [reflexivity|].
  exact (central_header_layout Sample.storedDeflate
           [Sample.alpha; Sample.bravo] 1 Sample.bravo H eq_refl).
Defined.

Lemma spans_take_le (deflate : Compressor) (files : list File) (i : nat) :
  0 <= spans deflate 0 (take i files) <= spans deflate 0 files.
Proof.
  split; [apply spans_nonneg|].
  rewrite <- (take_drop i files) at 2.
  rewrite <- !entryBlocks_length, entryBlocks_app, length_app. lia.
Qed.

(** The archive of a delivering compressor, with the end record's two
    pointers when they fit their fields. *)
Lemma archive_sections (deflate : Compressor) (files : list File) :
  delivers deflate files ->
  spans deflate 0 files < 2 ^ 32 ->
  totalLength (centralDirectory deflate files) < 2 ^ 32 ->
  exists archive : Blob,
    compress deflate (AnArray files) = Ok archive /\
    blob_bytes archive =
      entryBlocks deflate 0 files ++
      concat (centralDirectory deflate files) ++ endRecord archive /\
    length (endRecord archive) = 22%nat /\
    field (endRecord archive) 0 4 = 0x06054b50 /\
    field (endRecord archive) 4 2 = 0 /\ field (endRecord archive) 6 2 = 0 /\
    field (endRecord archive) 20 2 = 0 /\
    Z.to_nat (field (endRecord archive) 16 4) =
      length (entryBlocks deflate 0 files) /\
    Z.to_nat (field (endRecord archive) 12 4) =
      length (concat (centralDirectory deflate files)).
Proof.
  intros Hd Hstart Hsize.
  destruct (compress_array_spec deflate files Hd) as (Hc & _ & _).
  eexists. split; [exact Hc|].
  rewrite app_assoc, endRecord_of_archive. cbn [blob_bytes].
  destruct (endRecordLayout_fields (Z.of_nat (length files))
              (Z.of_nat (length (concat (centralDirectory deflate files))))
              (spans deflate 0 files))
    as (F0 & F4 & F6 & _ & _ & F12 & F16 & F20).
  pose proof (spans_nonneg deflate files 0) as Hnn.
  rewrite totalLength_concat in Hsize.
  rewrite Z.mod_small in F12, F16 by lia.
  rewrite F12, F16, Nat2Z.id, <- entryBlocks_length, Nat2Z.id.
  rewrite <- app_assoc.
  repeat split; try assumption.
Qed.

(** X12.  In an archive whose entries and central directory are each below
    4 GiB, the end record finds the central directory: the bytes from its
    centralDirStart, centralDirSize of them, are the central headers in
    order, the end record follows them at once and ends the archive; its
    signature is 0x06054b50 and its disk numbers and comment length are 0. *)
Theorem end_record_locates_central_directory
  (deflate : Compressor) (files : list File) :
  delivers deflate files ->
  spans deflate 0 files < 2 ^ 32 ->
  totalLength (centralDirectory deflate files) < 2 ^ 32 ->
  exists archive : Blob,
    compress deflate (AnArray files) = Ok archive /\
    let e := endRecord archive in
    let start := Z.to_nat (field e 16 4) in
    let size := Z.to_nat (field e 12 4) in
    field e 0 4 = 0x06054b50 /\ field e 4 2 = 0 /\ field e 6 2 = 0 /\
    field e 20 2 = 0 /\
    take size (drop start (blob_bytes archive)) =
      concat (centralDirectory deflate files) /\
    drop (start + size) (blob_bytes archive) = e /\
    length (blob_bytes archive) = (start + size + 22)%nat.
Proof.
  intros Hd Hstart Hsize.
  destruct (archive_sections deflate files Hd Hstart Hsize)
    as (archive & Hc & Hb & Hlen & F0 & F4 & F6 & F20 & Hs & Hz).
  exists archive. split; [exact Hc|]. cbv zeta.
  rewrite Hs, Hz.
  repeat split; try assumption.
  - rewrite Hb at 1. rewrite drop_app_length. apply take_app_length.
  - rewrite Hb at 1. rewrite app_assoc, <- length_app. apply drop_app_length.
  - rewrite Hb at 1. rewrite !length_app, Hlen. lia.
Qed.

Lemma end_record_locates_central_directory_witness :
  delivers Sample.storedDeflate [Sample.alpha; Sample.bravo] /\
  spans Sample.storedDeflate 0 [Sample.alpha; Sample.bravo] < 2 ^ 32 /\
  totalLength (centralDirectory Sample.storedDeflate
                 [Sample.alpha; Sample.bravo]) < 2 ^ 32 /\
  exists archive : Blob,
    compress Sample.storedDeflate (AnArray [Sample.alpha; Sample.bravo]) =
      Ok archive /\
    let e := endRecord archive in
    let start := Z.to_nat (field e 16 4) in
    let size := Z.to_nat (field e 12 4) in
    field e 0 4 = 0x06054b50 /\ field e 4 2 = 0 /\ field e 6 2 = 0 /\
    field e 20 2 = 0 /\
    take size (drop start (blob_bytes archive)) =
      concat (centralDirectory Sample.storedDeflate
                [Sample.alpha; Sample.bravo]) /\
    drop (start + size) (blob_bytes archive) = e /\
    length (blob_bytes archive) = (start + size + 22)%nat.
Proof.
  assert (H : delivers Sample.storedDeflate [Sample.alpha; Sample.bravo])
    by (intros i f _; reflexivity).
  assert (H1 : spans Sample.storedDeflate 0 [Sample.alpha; Sample.bravo]
               < 2 ^ 32) by (vm_compute; reflexivity).
  assert (H2 : totalLength (centralDirectory Sample.storedDeflate
                              [Sample.alpha; Sample.bravo]) < 2 ^ 32)
    by (vm_compute; reflexivity).
  split; [exact H|]. split; [exact H1|]. split; [exact H2|].
  exact (end_record_locates_central_directory Sample.storedDeflate
           [Sample.alpha; Sample.bravo] H H1 H2).
Defined.

End Directory.

Section Pointers.

(** X13.  In an archive whose entries are below 4 GiB, the offset a
    central header records leads to that entry's local file header: the
    bytes there start with the signature 0x04034b50 and carry the same
    CRC-32, sizes, filename length and filename bytes as the central
    header. *)
Theorem central_offset_leads_to_local_header
  (deflate : Compressor) (files : list File) (i : nat) (f : File) :
  delivers deflate files ->
  spans deflate 0 files < 2 ^ 32 ->
  files !! i = Some f ->
  exists (archive : Blob) (ch : list byte),
    compress deflate (AnArray files) = Ok archive /\
    centralDirectory deflate files !! i = Some ch /\
    let h := drop (Z.to_nat (field ch 42 4)) (blob_bytes archive) in
    let n := length (encodeFilename (name f)) in
    field h 0 4 = 0x04034b50 /\
    field h 14 4 = field ch 16 4 /\
    field h 18 4 = field ch 20 4 /\
    field h 22 4 = field ch 24 4 /\
    field h 26 2 = field ch 28 2 /\
    take n (drop 30 h) = take n (drop 46 ch).
Proof.
  intros Hd Hsmall Hi.
  destruct (local_header_in_archive deflate files i f Hd Hi)
    as (archive & Hc & F).
  destruct (compress_array_spec deflate files Hd) as (_ & _ & Hlook).
  exists archive. eexists. split; [exact Hc|].
  split; [apply Hlook; exact Hi|].
  cbv zeta in F |- *.
  destruct F as (F0&_&_&_&_&_&F14&F18&F22&F26&_&Fname&_).
  unfold entryCentralHeader.
  match goal with
  | |- context [centralHeaderLayout ?crc ?cs ?us ?fnb ?cb ?off] =>
      pose proof (centralHeaderLayout_fields crc cs us fnb cb off []) as G
  end.
  cbv zeta in G. rewrite app_nil_r in G.
  destruct G as (_&_&_&_&_&_&_&G16&G20&G24&G28&_&_&_&_&_&G42&Gname&_).
  pose proof (spans_take_le deflate files i) as Hle.
  rewrite Z.mod_small in G42 by lia.
  rewrite Z.mod_small in G16 by apply calculateCRC32_range.
  rewrite G42, G16, G20, G24, G28, Gname.
  repeat split; assumption.
Qed.

Lemma central_offset_leads_to_local_header_witness :
  delivers Sample.storedDeflate [Sample.alpha; Sample.bravo] /\
  spans Sample.storedDeflate 0 [Sample.alpha; Sample.bravo] < 2 ^ 32 /\
  [Sample.alpha; Sample.bravo] !! 1%nat = Some Sample.bravo /\
  exists (archive : Blob) (ch : list byte),
    compress Sample.storedDeflate (AnArray [Sample.alpha; Sample.bravo]) =
      Ok archive /\
    centralDirectory Sample.storedDeflate [Sample.alpha; Sample.bravo] !! 1%nat
      = Some ch /\
    let h := drop (Z.to_nat (field ch 42 4)) (blob_bytes archive) in
    let n := length (encodeFilename (name Sample.bravo)) in
    field h 0 4 = 0x04034b50 /\
    field h 14 4 = field ch 16 4 /\
    field h 18 4 = field ch 20 4 /\
    field h 22 4 = field ch 24 4 /\
    field h 26 2 = field ch 28 2 /\
    take n (drop 30 h) = take n (drop 46 ch).
Proof.
  assert (H : delivers Sample.storedDeflate [Sample.alpha; Sample.bravo])
    by (intros i f _; reflexivity).
  assert (H1 : spans Sample.storedDeflate 0 [Sample.alpha; Sample.bravo]
               < 2 ^ 32) by (vm_compute; reflexivity).
  split; [exact H|]. split; [exact H1|]. split; [reflexivity|].
  exact (central_offset_leads_to_local_header Sample.storedDeflate
           [Sample.alpha; Sample.bravo] 1 Sample.bravo H H1 eq_refl).
Defined.

Lemma steps_parts_prefix (deflate : Compressor) (files : list File)
  (n : nat) (st : state) :
  exists more,
    parts (steps deflate n files st) = parts st ++ more /\
    length more = (2 * length files)%nat.
Proof.
  revert n st. induction files as [|f files IH]; intros n st.
  - exists []. cbn. rewrite app_nil_r. split; reflexivity.
  - cbn [steps]. destruct (IH (S n) (step deflate n f st)) as (more & Hm & Hl).
    rewrite Hm. cbn [step parts]. rewrite <- app_assoc.
    eexists. split; [reflexivity|]. cbn [app length]. rewrite Hl. lia.
Qed.

(** X14.  The loop keeps its running offset equal to the number of bytes
    it has put in [parts]: started from a state where that holds, it ends in
    one where it holds; it only appends, two parts and one central header
    per file. *)
Theorem loop_offset_counts_emitted_bytes
  (deflate : Compressor) (files : list File) (n : nat) (st st' : state) :
  processFiles deflate n files st = Ok st' ->
  offset st = Z.of_nat (length (concat (parts st))) ->
  offset st' = Z.of_nat (length (concat (parts st'))) /\
  length (parts st') = (length (parts st) + 2 * length files)%nat /\
  length (centralHeaders st') =
    (length (centralHeaders st) + length files)%nat /\
  take (length (parts st)) (parts st') = parts st /\
  take (length (centralHeaders st)) (centralHeaders st') = centralHeaders st.
Proof.
  rewrite processFiles_spec.
  destruct (firstError deflate n files); [discriminate|].
  intros [= <-] Hinv.
  destruct (steps_parts_prefix deflate files n st) as (ps & Hps & Hpl).
  destruct (steps_centralHeaders_prefix deflate files n st) as (cs & Hcs & Hcl).
  repeat split.
  - rewrite steps_offset, steps_parts, length_app, Nat2Z.inj_add.
    rewrite entryBlocks_length, Hinv. reflexivity.
  - rewrite Hps, length_app, Hpl. reflexivity.
  - rewrite Hcs, length_app, Hcl. reflexivity.
  - rewrite Hps. apply take_app_length.
  - rewrite Hcs. apply take_app_length.
Qed.

Lemma loop_offset_counts_emitted_bytes_witness :
  exists st' : state,
    processFiles Sample.storedDeflate 0 [Sample.alpha; Sample.bravo] initial =
      Ok st' /\
    offset initial = Z.of_nat (length (concat (parts initial))) /\
    offset st' = Z.of_nat (length (concat (parts st'))) /\
    length (parts st') = (length (parts initial) + 2 * 2)%nat /\
    length (centralHeaders st') = (length (centralHeaders initial) + 2)%nat /\
    take (length (parts initial)) (parts st') = parts initial /\
    take (length (centralHeaders initial)) (centralHeaders st') =
      centralHeaders initial.
Proof.
  assert (H : processFiles Sample.storedDeflate 0 [Sample.alpha; Sample.bravo]
                initial =
              Ok (steps Sample.storedDeflate 0 [Sample.alpha; Sample.bravo]
                    initial))
    by (rewrite processFiles_spec; reflexivity).
  eexists. split; [exact H|]. split; [reflexivity|].
  exact (loop_offset_counts_emitted_bytes Sample.storedDeflate
           [Sample.alpha; Sample.bravo] 0 initial _ H eq_refl).
Defined.

(** X15.  The checksum is an unsigned 32-bit number, and the checksum of
    a concatenation is the checksum of its second part computed with the
    register the first part leaves (its checksum XOR 0xFFFFFFFF) in place of
    the initial one. *)
Theorem calculateCRC32_continues (first second : list byte) :
  0 <= calculateCRC32 (first ++ second) < 2 ^ 32 /\
  calculateCRC32 (first ++ second) =
  Z.lxor
    (fold_left crc32_reference_byte second
       (Z.lxor (calculateCRC32 first) 0xFFFFFFFF))
    0xFFFFFFFF.
Proof.
  split; [apply calculateCRC32_range|].
  assert (Hcrc : forall input,
             calculateCRC32 input =
             Z.lxor (ToUint32 (fold_left crcUpdate input 0xFFFFFFFF))
                    0xFFFFFFFF).
  { intros input. unfold calculateCRC32.
    rewrite ushr_spec by lia. rewrite Z.shiftr_0_r, ToUint32_bitxor.
    reflexivity. }
  rewrite !Hcrc, fold_left_app, crc_register_spec.
  rewrite Z.lxor_assoc, Z.lxor_nilpotent, Z.lxor_0_r. reflexivity.
Qed.

End Pointers.
